(** * vault-cred: the credential sync job ([internal/job/vault-cred-sync.go])

  A shallow embedding of [VaultCredSync.Run] and of the three store
  operations it dispatches to, together with the properties of one
  synchronisation cycle: change detection through the in-memory cursor,
  classification by key prefix, validation, construction of the attribute
  mapping and of the vault path, and isolation of per-entry failures.

  The job talks to collaborators that live outside this file of the
  repository (the Kubernetes client, the vault client, [encoding/json],
  the [api] package).  They are gathered in the class [Externals]: the
  job is modelled over any implementation of it, and a small simulated
  implementation ([Sim]) is used to run the job on concrete inputs. *)

From Stdlib Require Import ZArith Ascii.
From stdpp Require Import gmap strings list fin_maps pretty.

Local Open Scope string_scope.
Local Open Scope list_scope.

(** ** Go values *)

(** A Go [error] value: [None] is [nil], [Some msg] is an error whose
    [Error()] text is [msg]. *)
Definition error := option string.

(** The [(T, error)] pair returned by a fallible call. *)
Inductive result (A : Type) : Type :=
| Ok (a : A)
| Err (e : string).
Arguments Ok {A} a.
Arguments Err {A} e.

(** [map[string]string]. *)
Abbreviation strmap := (gmap string string).

(** [time.Time], represented by the instant it denotes (nanoseconds since
    the epoch).  [Time.Equal] compares instants and [Time.Add] shifts the
    instant by a duration. *)
Definition Time := Z.
Definition Time_Equal (t u : Time) : bool := Z.eqb t u.
Definition Time_Add (t : Time) (d : Z) : Time := (t + d)%Z.

Module strings.

(** [strings.HasPrefix(s, prefix)]. *)
Definition HasPrefix (s prefix : string) : bool := String.prefix prefix s.

Definition lower_ascii (c : Ascii.ascii) : Ascii.ascii :=
  let n := Ascii.nat_of_ascii c in
  if (65 <=? n)%nat && (n <=? 90)%nat then Ascii.ascii_of_nat (n + 32) else c.

(** [strings.ToLower(s)] on ASCII text: the letters [A]-[Z] are mapped to
      [a]-[z] and every other byte is kept.  The job applies it to its own
      ASCII constants only. *)
Fixpoint ToLower (s : string) : string :=
  match s with
  | EmptyString => EmptyString
  | String c s' => String (lower_ascii c) (ToLower s')
  end.

End strings.

(** [len(s) == 0] on a string. *)
Definition len0 (s : string) : bool := (String.length s =? 0)%nat.

(** [errors.WithMessagef(err, format, args...)] of [github.com/pkg/errors]:
    it annotates [err] with the formatted message, and returns [nil] when
    [err] is [nil].  [msg] is the message already formatted. *)
Definition errors_WithMessagef (err : error) (msg : string) : error :=
  match err with
  | None => None
  | Some cause => Some (msg +:+ ": " +:+ cause)
  end.

(** ** Constants of the job *)

Definition serviceCredSecretKeyPrefix := "SERVICE-CRED".
Definition certSecretKeyPrefix := "CERTS".
Definition genericSecretKeyPrefix := "GENERIC".
Definition caDataKey := "ca.pem".
Definition certDataKey := "cert.crt".
Definition keyDataKey := "key.key".
Definition serviceCredentialUserNameKey := "userName".
Definition serviceCredentialPasswordKey := "password".

(** ** Credential records *)

Module CertificateData.
Record t := mk {
  EntityName : string;
  CertIndentifier : string;
  CACert : string;
  Key : string;
  Cert : string }.
End CertificateData.

Module ServiceCredentail.
Record t := mk {
  EntityName : string;
  CredIndentifier : string;
  UserName : string;
  Password : string;
  AdditionalData : strmap }.
End ServiceCredentail.

Module GenericCredential.
Record t := mk {
  CredentialType : string;
  EntityName : string;
  CredIndentifier : string;
  Credential : strmap }.
End GenericCredential.

(** The part of [config.VaultEnv] the job reads. *)
Record VaultEnv := {
  VaultCredSyncSecretName : string;
  VaultSecretNameSpace : string }.

(** The receiver of the job.  [lastUpdatedTime] is the [*time.Time] cursor:
    [None] is the [nil] pointer of a job that has not completed a cycle. *)
Record VaultCredSync := {
  conf : VaultEnv;
  frequency : string;
  lastUpdatedTime : option Time }.

(** What [K8SClient.GetSecret] returns on success. *)
Record SecretData := {
  Data : strmap;
  LastUpdatedTime : Time }.

(** ** Observable events of a cycle *)

Inductive level := Debug | Info | Error.

(** One request to [VaultClient.PutCredential]. *)
Record PutRequest := {
  mountPath : string;
  secretPath : string;
  attributes : strmap }.

Inductive event :=
| Log (l : level) (msg : string)
| Authenticate (res : error)
| PutCredential (req : PutRequest) (res : error).

(** ** The collaborators *)

(** [World] is the state of everything outside the job (cluster and vault).
    A call to a collaborator may read and change it. *)
Class Externals (World : Type) := {
  json_Unmarshal_ServiceCredentail : string → result ServiceCredentail.t;
  json_Unmarshal_CertificateData : string → result CertificateData.t;
  json_Unmarshal_GenericCredential : string → result GenericCredential.t;
  api_PrepareCredentialSecretPath : string → string → string → string;
  api_CredentialMountPath : string;
  client_NewK8SClient : World → error * World;
  K8SClient_GetSecret : string → string → World → result SecretData * World;
  client_NewVaultClientForVaultToken : World → error * World;
  VaultClient_PutCredential : PutRequest → World → error * World;
(** the order in which a [for ... range] statement visits a map *)
  range : strmap → list (string * string) }.

(** Go visits every entry of a map once, in an unspecified order. *)
Definition RangeLaw `{Externals World} : Prop :=
  ∀ m : strmap, range m ≡ₚ map_to_list m.

(** ** The cycle monad: world state and emitted events *)

Definition M (World A : Type) : Type := World → A * World * list event.

Section Monad.
Context {World : Type}.

#[export] Instance M_ret : MRet (M World) := λ A a w, (a, w, []).

#[export] Instance M_bind : MBind (M World) := λ A B f m w,
  let '(a, w1, t1) := m w in
  let '(b, w2, t2) := f a w1 in
  (b, w2, t1 ++ t2).

Definition emit (e : event) : M World unit := λ w, (tt, w, [e]).

Definition value {A} (r : A * World * list event) : A := r.1.1.
Definition world {A} (r : A * World * list event) : World := r.1.2.
Definition trace {A} (r : A * World * list event) : list event := r.2.

(** A [for] loop over [l]; a [continue] ends the body of one iteration. *)
Fixpoint forEach {A} (l : list A) (body : A → M World unit) : M World unit :=
  match l with
  | [] => mret tt
  | x :: l' => body x;; forEach l' body
  end.

End Monad.

(** ** The job *)

Section Job.
Context {World : Type} `{Externals World}.

(** [v.log.Debugf], [v.log.Infof], [v.log.Errorf] with the message already
    formatted. *)
Definition logf (l : level) (msg : string) : M World unit := emit (Log l msg).

Definition NewK8SClient : M World error := λ w,
  let '(err, w') := client_NewK8SClient w in (err, w', []).

Definition GetSecret (name namespace : string) : M World (result SecretData) := λ w,
  let '(r, w') := K8SClient_GetSecret name namespace w in (r, w', []).

Definition NewVaultClientForVaultToken : M World error := λ w,
  let '(err, w') := client_NewVaultClientForVaultToken w in
  (err, w', [Authenticate err]).

Definition vc_PutCredential (req : PutRequest) : M World error := λ w,
  let '(err, w') := VaultClient_PutCredential req w in
  (err, w', [PutCredential req err]).

(** [for key, val := range m { cred[key] = val }], on the entries of [m] in
    the order the loop visits them. *)
Definition assignAll (cred : strmap) (entries : list (string * string)) : strmap :=
  foldl (λ c kv, <[kv.1 := kv.2]> c) cred entries.

Definition storeServiceCredential (secretIdentifier secretData : string)
  : M World error :=
  match json_Unmarshal_ServiceCredentail secretData with
  | Err cause =>
    mret (errors_WithMessagef (Some cause)
            ("failed to parse " +:+ secretIdentifier +:+ " secret data"))
  | Ok serviceCredData =>
    let err : error := None in
    if len0 (ServiceCredentail.UserName serviceCredData)
       || len0 (ServiceCredentail.Password serviceCredData)
       || len0 (ServiceCredentail.EntityName serviceCredData)
    then
      mret (errors_WithMessagef err
              ("credential attributes are emty for " +:+ secretIdentifier
               +:+ " secret data"))
    else
      let cred :=
        assignAll
          (<[serviceCredentialPasswordKey := ServiceCredentail.Password serviceCredData]>
             {[serviceCredentialUserNameKey := ServiceCredentail.UserName serviceCredData]})
          (range (ServiceCredentail.AdditionalData serviceCredData)) in
      let secretPath :=
        api_PrepareCredentialSecretPath
          (strings.ToLower serviceCredSecretKeyPrefix)
          (ServiceCredentail.EntityName serviceCredData)
          (ServiceCredentail.CredIndentifier serviceCredData) in
      err ← vc_PutCredential
              {| mountPath := api_CredentialMountPath;
                 secretPath := secretPath;
                 attributes := cred |};
      match err with
      | Some _ =>
        mret (errors_WithMessagef err
                ("failed to write " +:+ secretIdentifier
                 +:+ " secret data to vault"))
      | None =>
        logf Info ("stored sync service credential for "
                   +:+ ServiceCredentail.EntityName serviceCredData +:+ "/"
                   +:+ ServiceCredentail.CredIndentifier serviceCredData);;
        mret None
      end
  end.

Definition storeCertData (secretIdentifier secretData : string)
  : M World error :=
  match json_Unmarshal_CertificateData secretData with
  | Err cause =>
    mret (errors_WithMessagef (Some cause)
            ("failed to parse " +:+ secretIdentifier +:+ " secret data"))
  | Ok certData =>
    let err : error := None in
    if len0 (CertificateData.CACert certData)
       || len0 (CertificateData.Cert certData)
       || len0 (CertificateData.Key certData)
       || len0 (CertificateData.EntityName certData)
       || len0 (CertificateData.CertIndentifier certData)
    then
      mret (errors_WithMessagef err
              ("credential attributes are emty for " +:+ secretIdentifier
               +:+ " secret data"))
    else
      let cred : strmap :=
        <[keyDataKey := CertificateData.Key certData]>
          (<[certDataKey := CertificateData.Cert certData]>
             {[caDataKey := CertificateData.CACert certData]}) in
      let secretPath :=
        api_PrepareCredentialSecretPath
          (strings.ToLower certSecretKeyPrefix)
          (CertificateData.EntityName certData)
          (CertificateData.CertIndentifier certData) in
      err ← vc_PutCredential
              {| mountPath := api_CredentialMountPath;
                 secretPath := secretPath;
                 attributes := cred |};
      match err with
      | Some _ =>
        mret (errors_WithMessagef err
                ("failed to write " +:+ secretIdentifier
                 +:+ " secret data to vault"))
      | None =>
        logf Info ("stored sync cert for "
                   +:+ CertificateData.EntityName certData +:+ "/"
                   +:+ CertificateData.CertIndentifier certData);;
        mret None
      end
  end.

Definition storeGenericCredential (secretIdentifier secretData : string)
  : M World error :=
  match json_Unmarshal_GenericCredential secretData with
  | Err cause =>
    mret (errors_WithMessagef (Some cause)
            ("failed to parse " +:+ secretIdentifier +:+ " secret data"))
  | Ok genericCredData =>
    let err : error := None in
    if len0 (GenericCredential.EntityName genericCredData)
       || len0 (GenericCredential.CredIndentifier genericCredData)
       || len0 (GenericCredential.CredentialType genericCredData)
    then
      mret (errors_WithMessagef err
              ("credential attributes are emty for " +:+ secretIdentifier
               +:+ " secret data"))
    else
      let cred :=
        assignAll ∅ (range (GenericCredential.Credential genericCredData)) in
      let secretPath :=
        api_PrepareCredentialSecretPath
          (GenericCredential.CredentialType genericCredData)
          (GenericCredential.EntityName genericCredData)
          (GenericCredential.CredIndentifier genericCredData) in
      err ← vc_PutCredential
              {| mountPath := api_CredentialMountPath;
                 secretPath := secretPath;
                 attributes := cred |};
      match err with
      | Some _ =>
        mret (errors_WithMessagef err
                ("failed to write " +:+ secretIdentifier
                 +:+ " secret data to vault"))
      | None =>
        logf Info ("stored sync credential for "
                   +:+ GenericCredential.CredentialType genericCredData +:+ "/"
                   +:+ GenericCredential.EntityName genericCredData +:+ "/"
                   +:+ GenericCredential.CredIndentifier genericCredData);;
        mret None
      end
  end.

(** [err = store(...); if err != nil { v.log.Errorf("%s", err); continue }]. *)
Definition logError (store : M World error) : M World unit :=
  err ← store;
  match err with
  | Some msg => logf Error msg
  | None => mret tt
  end.

(** The body of the loop of [Run] for the entry [key, secretValue]. *)
Definition syncEntry (entry : string * string) : M World unit :=
  let '(key, secretValue) := entry in
  if strings.HasPrefix key serviceCredSecretKeyPrefix then
    logError (storeServiceCredential key secretValue)
  else if strings.HasPrefix key certSecretKeyPrefix then
    logError (storeCertData key secretValue)
  else if strings.HasPrefix key genericSecretKeyPrefix then
    logError (storeGenericCredential key secretValue)
  else
    logf Info ("credentail type " +:+ key +:+ " not supported").

(** [v.lastUpdatedTime != nil && v.lastUpdatedTime.Equal(t)]. *)
Definition unchanged (v : VaultCredSync) (t : Time) : bool :=
  match lastUpdatedTime v with
  | Some last => Time_Equal last t
  | None => false
  end.

(** [NewVaultCredSync]: [env] is what [config.GetVaultEnv] returned.  A new
    job has no cursor. *)
Definition NewVaultCredSync (env : result VaultEnv) (frequency : string)
  : result VaultCredSync :=
  match env with
  | Err e => Err e
  | Ok conf => Ok {| conf := conf; frequency := frequency; lastUpdatedTime := None |}
  end.

Definition CronSpec (v : VaultCredSync) : string := frequency v.

(** [Run]; the value returned is the receiver after the cycle. *)
Definition Run (v : VaultCredSync) : M World VaultCredSync :=
  logf Debug "started vault credential sync job";;
  err ← NewK8SClient;
  match err with
  | Some msg => logf Error ("failed to init k8s client, " +:+ msg);; mret v
  | None =>
    r ← GetSecret (VaultCredSyncSecretName (conf v)) (VaultSecretNameSpace (conf v));
    match r with
    | Err msg => logf Debug ("failed to read sync secret, " +:+ msg);; mret v
    | Ok secretValues =>
      logf Debug ("found " +:+ pretty (size (Data secretValues))
                  +:+ " secret values to sync");;
      if unchanged v (LastUpdatedTime secretValues) then
        logf Debug "no change in secret";; mret v
      else
        err ← NewVaultClientForVaultToken;
        match err with
        | Some msg => logf Error msg;; mret v
        | None =>
          forEach (range (Data secretValues)) syncEntry;;
          let updateTime := Time_Add (LastUpdatedTime secretValues) 0 in
          let v' := {| conf := conf v; frequency := frequency v;
                       lastUpdatedTime := Some updateTime |} in
          logf Debug "vault credential sync job completed";;
          mret v'
        end
    end
  end.

End Job.

(** ** What a trace shows *)

(** The requests sent to [PutCredential], in order, whatever their outcome. *)
Definition putRequests (t : list event) : list PutRequest :=
  omap (λ e, match e with PutCredential req _ => Some req | _ => None end) t.

(** The requests the vault refused. *)
Definition failedRequests (t : list event) : list PutRequest :=
  omap (λ e, match e with PutCredential req (Some _) => Some req | _ => None end) t.

(** The requests the vault accepted. *)
Definition storedRequests (t : list event) : list PutRequest :=
  omap (λ e, match e with PutCredential req None => Some req | _ => None end) t.

(** The number of vault authentications attempted. *)
Definition authentications (t : list event) : nat :=
  length (omap (λ e, match e with Authenticate res => Some res | _ => None end) t).

(** ** The request an entry leads to *)

Section Requests.
Context {World : Type} `{Externals World}.

(** The write asked for by a decoded service credential; [None] when the
    record is turned down by [storeServiceCredential]. *)
Definition serviceRequest (r : ServiceCredentail.t) : option PutRequest :=
  if len0 (ServiceCredentail.UserName r) || len0 (ServiceCredentail.Password r)
     || len0 (ServiceCredentail.EntityName r)
  then None
  else Some {|
    mountPath := api_CredentialMountPath;
    secretPath := api_PrepareCredentialSecretPath
                    (strings.ToLower serviceCredSecretKeyPrefix)
                    (ServiceCredentail.EntityName r)
                    (ServiceCredentail.CredIndentifier r);
    attributes := assignAll
                    (<[serviceCredentialPasswordKey := ServiceCredentail.Password r]>
                       {[serviceCredentialUserNameKey := ServiceCredentail.UserName r]})
                    (range (ServiceCredentail.AdditionalData r)) |}.

Definition certRequest (r : CertificateData.t) : option PutRequest :=
  if len0 (CertificateData.CACert r) || len0 (CertificateData.Cert r)
     || len0 (CertificateData.Key r) || len0 (CertificateData.EntityName r)
     || len0 (CertificateData.CertIndentifier r)
  then None
  else Some {|
    mountPath := api_CredentialMountPath;
    secretPath := api_PrepareCredentialSecretPath
                    (strings.ToLower certSecretKeyPrefix)
                    (CertificateData.EntityName r)
                    (CertificateData.CertIndentifier r);
    attributes := <[keyDataKey := CertificateData.Key r]>
                    (<[certDataKey := CertificateData.Cert r]>
                       {[caDataKey := CertificateData.CACert r]}) |}.

Definition genericRequest (r : GenericCredential.t) : option PutRequest :=
  if len0 (GenericCredential.EntityName r) || len0 (GenericCredential.CredIndentifier r)
     || len0 (GenericCredential.CredentialType r)
  then None
  else Some {|
    mountPath := api_CredentialMountPath;
    secretPath := api_PrepareCredentialSecretPath
                    (GenericCredential.CredentialType r)
                    (GenericCredential.EntityName r)
                    (GenericCredential.CredIndentifier r);
    attributes := assignAll ∅ (range (GenericCredential.Credential r)) |}.

Definition decoded {A} (r : result A) : option A :=
  match r with Ok a => Some a | Err _ => None end.

(** The write an entry of the source secret leads to: the entry is
    well-formed when this is [Some _]. *)
Definition entryRequest (entry : string * string) : option PutRequest :=
  let '(key, secretValue) := entry in
  if strings.HasPrefix key serviceCredSecretKeyPrefix then
    decoded (json_Unmarshal_ServiceCredentail secretValue) ≫= serviceRequest
  else if strings.HasPrefix key certSecretKeyPrefix then
    decoded (json_Unmarshal_CertificateData secretValue) ≫= certRequest
  else if strings.HasPrefix key genericSecretKeyPrefix then
    decoded (json_Unmarshal_GenericCredential secretValue) ≫= genericRequest
  else None.

End Requests.

(** ** The effects of a store operation and of a cycle *)

Section Effects.
Context {World : Type} `{Externals World}.

(** What a store operation does once the record passed validation and the
    request [req] is built: one call to [PutCredential], then either the
    wrapped error or the informational message [stored]. *)
Definition putAndReport (req : PutRequest) (failed stored : string) (w : World)
  : error * World * list event :=
  let '(err, w') := VaultClient_PutCredential req w in
  match err with
  | Some _ => (errors_WithMessagef err failed, w', [PutCredential req err])
  | None => (None, w', [PutCredential req None; Log Info stored])
  end.

(** The effect of one iteration on the world and on the vault, read off
    [entryRequest]: nothing when the entry is not well-formed, one call to
    [PutCredential] otherwise. *)
Definition entryEffect (entry : string * string) (w : World)
  : World * list PutRequest * list PutRequest :=
  match entryRequest entry with
  | None => (w, [], [])
  | Some req =>
    ((VaultClient_PutCredential req w).2, [req],
     match (VaultClient_PutCredential req w).1 with
     | None => [req]
     | Some _ => []
     end)
  end.

Definition started : event := Log Debug "started vault credential sync job".

Definition found (secretValues : SecretData) : event :=
  Log Debug ("found " +:+ pretty (size (Data secretValues))
             +:+ " secret values to sync").

Definition completed : event := Log Debug "vault credential sync job completed".

(** The receiver after a cycle that went through the loop. *)
Definition synced (v : VaultCredSync) (secretValues : SecretData) : VaultCredSync :=
  {| conf := conf v; frequency := frequency v;
     lastUpdatedTime := Some (LastUpdatedTime secretValues) |}.

(** The vault accepts every write as long as the world is in [P], and a
    write keeps the world in [P]. *)
Definition Accepting (P : World → Prop) : Prop :=
  ∀ req w,
    P w →
    (VaultClient_PutCredential req w).1 = None
    ∧ P (VaultClient_PutCredential req w).2.

(** The world after the writes [reqs] were sent to the vault, in order. *)
Definition written (w : World) (reqs : list PutRequest) : World :=
  foldl (λ w' req, (VaultClient_PutCredential req w').2) w reqs.

(** What an iteration makes of the run [r] of a store operation: the world
    and the events of the operation, then the error it returned, if any,
    logged at error level. *)
Definition handled (r : error * World * list event) : unit * World * list event :=
  (tt, world r,
   trace r ++ match value r with Some msg => [Log Error msg] | None => [] end).

(** What the cycle does when the cursor does not hold the timestamp of the
    fetched secret: it authenticates and, once the authentication is
    granted, goes through all the entries. *)
Definition pastCursor (v : VaultCredSync) (w : World)
  (secretValues : SecretData) (w2 : World) : Prop :=
  authentications (trace (Run v w)) = 1
  ∧ ∀ w3, client_NewVaultClientForVaultToken w2 = (None, w3) →
          trace (Run v w)
          = [started; found secretValues; Authenticate None]
            ++ trace (forEach (range (Data secretValues)) syncEntry w3)
            ++ [completed]
          ∧ putRequests (trace (Run v w))
            = omap entryRequest (range (Data secretValues))
          ∧ lastUpdatedTime (value (Run v w))
            = Some (LastUpdatedTime secretValues).

End Effects.

(** ** A simulated cluster and vault *)

Module Sim.

Record World := {
  clusterError : error;
  secrets : gmap (string * string) SecretData;
  tokenError : error;
  sealedPaths : list string;
  vault : gmap string strmap }.

Definition NewK8SClient (w : World) : error * World := (clusterError w, w).

(** The path function of the simulation: the three components joined by
    ["/"].  The package [internal/api] is outside this file of the
    repository; the properties of the job are proved for any path function
    and this one only serves to run the job. *)
Definition PrepareCredentialSecretPath
  (credentialType credEntityName credIdentifier : string) : string :=
  credentialType +:+ "/" +:+ credEntityName +:+ "/" +:+ credIdentifier.

(** Secrets are found by namespace and name. *)
Definition GetSecret (name namespace : string) (w : World)
  : result SecretData * World :=
  match secrets w !! (namespace, name) with
  | Some s => (Ok s, w)
  | None => (Err ("secrets " +:+ name +:+ " not found"), w)
  end.

Definition NewVaultClientForVaultToken (w : World) : error * World :=
  (tokenError w, w).

(** A write is refused on a sealed path and replaces the attributes stored
    at the path otherwise. *)
Definition PutCredential (req : PutRequest) (w : World) : error * World :=
  if bool_decide (secretPath req ∈ sealedPaths w) then
    (Some "permission denied", w)
  else
    (None,
     {| clusterError := clusterError w; secrets := secrets w;
        tokenError := tokenError w; sealedPaths := sealedPaths w;
        vault := <[mountPath req +:+ secretPath req := attributes req]> (vault w) |}).

(** The documents the simulated decoder knows, by name, with the record
    [json.Unmarshal] fills for each; any other text is not valid JSON. *)
Definition serviceDocuments : list (string * ServiceCredentail.t) :=
  [("doc:orders", ServiceCredentail.mk "orders" "primary" "svc" "p1" ∅);
   ("doc:orders-extra",
    ServiceCredentail.mk "orders" "primary" "svc" "p1"
      (<["password" := "p2"]> {["url" := "db:5432"]}));
   ("doc:orders-no-identifier", ServiceCredentail.mk "orders" "" "svc" "p1" ∅);
   ("doc:orders-no-user", ServiceCredentail.mk "orders" "primary" "" "p1" ∅)].

Definition certDocuments : list (string * CertificateData.t) :=
  [("doc:web", CertificateData.mk "web" "tls1" "A" "C" "B");
   ("doc:web-no-key", CertificateData.mk "web" "tls1" "A" "" "B")].

Definition genericDocuments : list (string * GenericCredential.t) :=
  [("doc:api-key", GenericCredential.mk "api-key" "svc1" "k1" {["token" := "t"]});
   ("doc:no-type", GenericCredential.mk "" "svc1" "k1" {["token" := "t"]})].

Definition decode {A} (documents : list (string * A)) (text : string) : result A :=
  match list_find (λ d, d.1 = text) documents with
  | Some (_, (_, r)) => Ok r
  | None => Err "invalid character"
  end.

#[global] Instance externals : Externals World := {|
  json_Unmarshal_ServiceCredentail := decode serviceDocuments;
  json_Unmarshal_CertificateData := decode certDocuments;
  json_Unmarshal_GenericCredential := decode genericDocuments;
  api_PrepareCredentialSecretPath := PrepareCredentialSecretPath;
  api_CredentialMountPath := "secret/";
  client_NewK8SClient := NewK8SClient;
  K8SClient_GetSecret := GetSecret;
  client_NewVaultClientForVaultToken := NewVaultClientForVaultToken;
  VaultClient_PutCredential := PutCredential;
  range := map_to_list |}.

Definition job (cursor : option Time) : VaultCredSync :=
  {| conf := {| VaultCredSyncSecretName := "vault-cred-sync-data";
                VaultSecretNameSpace := "capten" |};
     frequency := "@every 1m";
     lastUpdatedTime := cursor |}.

(** A cluster holding the sync secret with the given entries, and an empty
    vault. *)
Definition cluster (entries : list (string * string)) (updated : Time) : World :=
  {| clusterError := None;
     secrets := {[("capten", "vault-cred-sync-data") :=
                    {| Data := list_to_map entries; LastUpdatedTime := updated |}]};
     tokenError := None;
     sealedPaths := [];
     vault := ∅ |}.

(** The same cluster with a vault that refuses to write at [sealed]. *)
Definition seal (sealed : list string) (w : World) : World :=
  {| clusterError := clusterError w; secrets := secrets w;
     tokenError := tokenError w; sealedPaths := sealed; vault := vault w |}.

Definition mixed : list (string * string) :=
  [("SERVICE-CRED-bad", "{"); ("SERVICE-CRED-db", "doc:orders");
   ("CERTS-web", "doc:web"); ("GENERIC-x", "doc:api-key")].

End Sim.

(** Sample worlds and inputs for the simulated cluster. *)

Module Samples.

Definition w0 : Sim.World := Sim.cluster Sim.mixed 7%Z.

Definition fetched : SecretData :=
  {| Data := list_to_map Sim.mixed; LastUpdatedTime := 7%Z |}.

Definition good : strmap := list_to_map (tail Sim.mixed).

(** A cluster without the sync secret. *)
Definition noSecret : Sim.World :=
  {| Sim.clusterError := None; Sim.secrets := ∅; Sim.tokenError := None;
     Sim.sealedPaths := []; Sim.vault := ∅ |}.

(** A cluster that cannot be reached. *)
Definition unreachable : Sim.World :=
  {| Sim.clusterError := Some "unable to load in-cluster configuration";
     Sim.secrets := Sim.secrets w0; Sim.tokenError := None;
     Sim.sealedPaths := []; Sim.vault := ∅ |}.

(** A vault that turns the token down. *)
Definition noToken : Sim.World :=
  {| Sim.clusterError := None; Sim.secrets := Sim.secrets w0;
     Sim.tokenError := Some "permission denied";
     Sim.sealedPaths := []; Sim.vault := ∅ |}.

(** The vault of [w0] with the path of the certificate sealed. *)
Definition sealed : Sim.World := Sim.seal ["certs/web/tls1"] w0.

(** The write the entry ["CERTS-web"] of [Sim.mixed] leads to. *)
Definition webRequest : PutRequest :=
  {| mountPath := "secret/"; secretPath := "certs/web/tls1";
     attributes := <["key.key" := "C"]> (<["cert.crt" := "B"]> {["ca.pem" := "A"]}) |}.

Definition extra : strmap := <["password" := "p2"]> {["url" := "db:5432"]}.

End Samples.

(** ** Failures of a cycle *)

(** The messages logged at error level. *)
Definition errorsLogged (t : list event) : list string :=
  omap (λ e, match e with Log Error msg => Some msg | _ => None end) t.

Section Failures.
Context {World : Type} `{Externals World}.

(** The key of the entry is recognised and its value does not decode. *)
Definition parseFailure (entry : string * string) : bool :=
  let '(key, secretValue) := entry in
  if strings.HasPrefix key serviceCredSecretKeyPrefix then
    match json_Unmarshal_ServiceCredentail secretValue with
    | Err _ => true | Ok _ => false end
  else if strings.HasPrefix key certSecretKeyPrefix then
    match json_Unmarshal_CertificateData secretValue with
    | Err _ => true | Ok _ => false end
  else if strings.HasPrefix key genericSecretKeyPrefix then
    match json_Unmarshal_GenericCredential secretValue with
    | Err _ => true | Ok _ => false end
  else false.

End Failures.

(** * Facts about the model *)

(** ** Basic facts *)

Lemma Time_Equal_eq (t u : Time) : Time_Equal t u = true ↔ t = u.
Proof. unfold Time_Equal. apply Z.eqb_eq. Qed.

Lemma Time_Add_0 (t : Time) : Time_Add t 0 = t.
Proof. unfold Time_Add. lia. Qed.

Lemma len0_true (s : string) : len0 s = true ↔ s = "".
Proof. destruct s; unfold len0; simpl; split; congruence. Qed.

Lemma putRequests_app (t u : list event) :
  putRequests (t ++ u) = putRequests t ++ putRequests u.
Proof. unfold putRequests. apply omap_app. Qed.

Lemma storedRequests_app (t u : list event) :
  storedRequests (t ++ u) = storedRequests t ++ storedRequests u.
Proof. unfold storedRequests. apply omap_app. Qed.

Section Facts.
Context {World : Type} `{Externals World}.

Lemma trace_bind {A B} (m : M World A) (f : A → M World B) (w : World) :
  trace ((m ≫= f) w) = trace (m w) ++ trace (f (value (m w)) (world (m w))).
Proof.
  unfold mbind, M_bind, trace, value, world.
  destruct (m w) as [[a w1] t1]; simpl.
  destruct (f a w1) as [[b w2] t2]; reflexivity.
Qed.

Lemma world_bind {A B} (m : M World A) (f : A → M World B) (w : World) :
  world ((m ≫= f) w) = world (f (value (m w)) (world (m w))).
Proof.
  unfold mbind, M_bind, trace, value, world.
  destruct (m w) as [[a w1] t1]; simpl.
  destruct (f a w1) as [[b w2] t2]; reflexivity.
Qed.

Lemma value_bind {A B} (m : M World A) (f : A → M World B) (w : World) :
  value ((m ≫= f) w) = value (f (value (m w)) (world (m w))).
Proof.
  unfold mbind, M_bind, trace, value, world.
  destruct (m w) as [[a w1] t1]; simpl.
  destruct (f a w1) as [[b w2] t2]; reflexivity.
Qed.

End Facts.

(** ** The store operations, case by case *)

Section Stores.
Context {World : Type} `{Externals World}.

Lemma putAndReport_world req failed stored w :
  world (putAndReport req failed stored w) = (VaultClient_PutCredential req w).2.
Proof.
  unfold putAndReport. destruct (VaultClient_PutCredential req w) as [[e|] w']; reflexivity.
Qed.

Lemma putAndReport_requests req failed stored w :
  putRequests (trace (putAndReport req failed stored w)) = [req].
Proof.
  unfold putAndReport. destruct (VaultClient_PutCredential req w) as [[e|] w']; reflexivity.
Qed.

Lemma putAndReport_stored req failed stored w :
  storedRequests (trace (putAndReport req failed stored w))
  = match (VaultClient_PutCredential req w).1 with None => [req] | Some _ => [] end.
Proof.
  unfold putAndReport. destruct (VaultClient_PutCredential req w) as [[e|] w']; reflexivity.
Qed.

Lemma storeServiceCredential_parse_failure key s cause w :
  json_Unmarshal_ServiceCredentail s = Err cause →
  storeServiceCredential key s w
  = (errors_WithMessagef (Some cause) ("failed to parse " +:+ key +:+ " secret data"),
     w, []).
Proof. intros E. unfold storeServiceCredential. rewrite E. reflexivity. Qed.

Lemma storeServiceCredential_turned_down key s r w :
  json_Unmarshal_ServiceCredentail s = Ok r →
  serviceRequest r = None →
  storeServiceCredential key s w = (None, w, []).
Proof.
  intros E V. unfold storeServiceCredential, serviceRequest in *. rewrite E.
  destruct (_ || _); [reflexivity | discriminate].
Qed.

Lemma storeServiceCredential_put key s r req w :
  json_Unmarshal_ServiceCredentail s = Ok r →
  serviceRequest r = Some req →
  storeServiceCredential key s w
  = putAndReport req
      ("failed to write " +:+ key +:+ " secret data to vault")
      ("stored sync service credential for " +:+ ServiceCredentail.EntityName r
       +:+ "/" +:+ ServiceCredentail.CredIndentifier r) w.
Proof.
  intros E V. unfold storeServiceCredential, serviceRequest in *. rewrite E.
  destruct (_ || _); [discriminate|]. injection V as <-.
  unfold putAndReport, mbind, M_bind, vc_PutCredential, logf, emit, mret, M_ret.
  destruct (VaultClient_PutCredential _ w) as [[e|] w']; reflexivity.
Qed.

Lemma storeCertData_parse_failure key s cause w :
  json_Unmarshal_CertificateData s = Err cause →
  storeCertData key s w
  = (errors_WithMessagef (Some cause) ("failed to parse " +:+ key +:+ " secret data"),
     w, []).
Proof. intros E. unfold storeCertData. rewrite E. reflexivity. Qed.

Lemma storeCertData_turned_down key s r w :
  json_Unmarshal_CertificateData s = Ok r →
  certRequest r = None →
  storeCertData key s w = (None, w, []).
Proof.
  intros E V. unfold storeCertData, certRequest in *. rewrite E.
  destruct (_ || _); [reflexivity | discriminate].
Qed.

Lemma storeCertData_put key s r req w :
  json_Unmarshal_CertificateData s = Ok r →
  certRequest r = Some req →
  storeCertData key s w
  = putAndReport req
      ("failed to write " +:+ key +:+ " secret data to vault")
      ("stored sync cert for " +:+ CertificateData.EntityName r
       +:+ "/" +:+ CertificateData.CertIndentifier r) w.
Proof.
  intros E V. unfold storeCertData, certRequest in *. rewrite E.
  destruct (_ || _); [discriminate|]. injection V as <-.
  unfold putAndReport, mbind, M_bind, vc_PutCredential, logf, emit, mret, M_ret.
  destruct (VaultClient_PutCredential _ w) as [[e|] w']; reflexivity.
Qed.

Lemma storeGenericCredential_parse_failure key s cause w :
  json_Unmarshal_GenericCredential s = Err cause →
  storeGenericCredential key s w
  = (errors_WithMessagef (Some cause) ("failed to parse " +:+ key +:+ " secret data"),
     w, []).
Proof. intros E. unfold storeGenericCredential. rewrite E. reflexivity. Qed.

Lemma storeGenericCredential_turned_down key s r w :
  json_Unmarshal_GenericCredential s = Ok r →
  genericRequest r = None →
  storeGenericCredential key s w = (None, w, []).
Proof.
  intros E V. unfold storeGenericCredential, genericRequest in *. rewrite E.
  destruct (_ || _); [reflexivity | discriminate].
Qed.

Lemma storeGenericCredential_put key s r req w :
  json_Unmarshal_GenericCredential s = Ok r →
  genericRequest r = Some req →
  storeGenericCredential key s w
  = putAndReport req
      ("failed to write " +:+ key +:+ " secret data to vault")
      ("stored sync credential for " +:+ GenericCredential.CredentialType r
       +:+ "/" +:+ GenericCredential.EntityName r
       +:+ "/" +:+ GenericCredential.CredIndentifier r) w.
Proof.
  intros E V. unfold storeGenericCredential, genericRequest in *. rewrite E.
  destruct (_ || _); [discriminate|]. injection V as <-.
  unfold putAndReport, mbind, M_bind, vc_PutCredential, logf, emit, mret, M_ret.
  destruct (VaultClient_PutCredential _ w) as [[e|] w']; reflexivity.
Qed.

End Stores.

(** ** One iteration of the loop *)

Section Entries.
Context {World : Type} `{Externals World}.

Lemma logError_eq (store : M World error) (w : World) :
  logError store w
  = (tt, world (store w),
     trace (store w)
     ++ match value (store w) with Some msg => [Log Error msg] | None => [] end).
Proof.
  unfold logError, mbind, M_bind, logf, emit, mret, M_ret, world, trace, value.
  destruct (store w) as [[[msg|] w'] t]; simpl; reflexivity.
Qed.

Lemma logError_world (store : M World error) (w : World) :
  world (logError store w) = world (store w).
Proof. rewrite logError_eq. reflexivity. Qed.

Lemma logError_requests (store : M World error) (w : World) :
  putRequests (trace (logError store w)) = putRequests (trace (store w)).
Proof.
  rewrite logError_eq. unfold trace at 1. simpl. rewrite putRequests_app.
  destruct (value (store w)); simpl; apply app_nil_r.
Qed.

Lemma logError_stored (store : M World error) (w : World) :
  storedRequests (trace (logError store w)) = storedRequests (trace (store w)).
Proof.
  rewrite logError_eq. unfold trace at 1. simpl. rewrite storedRequests_app.
  destruct (value (store w)); simpl; apply app_nil_r.
Qed.

Lemma syncEntry_effect (entry : string * string) (w : World) :
  (world (syncEntry entry w),
   putRequests (trace (syncEntry entry w)),
   storedRequests (trace (syncEntry entry w)))
  = entryEffect entry w.
Proof.
  destruct entry as [key s]. unfold entryEffect, syncEntry, entryRequest.
  destruct (strings.HasPrefix key serviceCredSecretKeyPrefix).
  { rewrite logError_world, logError_requests, logError_stored.
    destruct (json_Unmarshal_ServiceCredentail s) as [r|c] eqn:E; simpl.
    - destruct (serviceRequest r) as [req|] eqn:V.
      + rewrite (storeServiceCredential_put _ _ _ _ _ E V).
        by rewrite putAndReport_world, putAndReport_requests, putAndReport_stored.
      + by rewrite (storeServiceCredential_turned_down _ _ _ _ E V).
    - by rewrite (storeServiceCredential_parse_failure _ _ _ _ E). }
  destruct (strings.HasPrefix key certSecretKeyPrefix).
  { rewrite logError_world, logError_requests, logError_stored.
    destruct (json_Unmarshal_CertificateData s) as [r|c] eqn:E; simpl.
    - destruct (certRequest r) as [req|] eqn:V.
      + rewrite (storeCertData_put _ _ _ _ _ E V).
        by rewrite putAndReport_world, putAndReport_requests, putAndReport_stored.
      + by rewrite (storeCertData_turned_down _ _ _ _ E V).
    - by rewrite (storeCertData_parse_failure _ _ _ _ E). }
  destruct (strings.HasPrefix key genericSecretKeyPrefix).
  { rewrite logError_world, logError_requests, logError_stored.
    destruct (json_Unmarshal_GenericCredential s) as [r|c] eqn:E; simpl.
    - destruct (genericRequest r) as [req|] eqn:V.
      + rewrite (storeGenericCredential_put _ _ _ _ _ E V).
        by rewrite putAndReport_world, putAndReport_requests, putAndReport_stored.
      + by rewrite (storeGenericCredential_turned_down _ _ _ _ E V).
    - by rewrite (storeGenericCredential_parse_failure _ _ _ _ E). }
  reflexivity.
Qed.

Lemma syncEntry_requests (entry : string * string) (w : World) :
  putRequests (trace (syncEntry entry w)) = option_list (entryRequest entry).
Proof.
  pose proof (f_equal (λ x, x.1.2) (syncEntry_effect entry w)) as E.
  simpl in E. rewrite E. unfold entryEffect.
  by destruct (entryRequest entry).
Qed.

Lemma syncEntry_world (entry : string * string) (w : World) :
  world (syncEntry entry w)
  = match entryRequest entry with
    | None => w
    | Some req => (VaultClient_PutCredential req w).2
    end.
Proof.
  pose proof (f_equal (λ x, x.1.1) (syncEntry_effect entry w)) as E.
  simpl in E. rewrite E. unfold entryEffect.
  by destruct (entryRequest entry).
Qed.

Lemma syncEntry_stored (entry : string * string) (w : World) :
  storedRequests (trace (syncEntry entry w))
  = match entryRequest entry with
    | None => []
    | Some req =>
      match (VaultClient_PutCredential req w).1 with None => [req] | Some _ => [] end
    end.
Proof.
  pose proof (f_equal (λ x, x.2) (syncEntry_effect entry w)) as E.
  simpl in E. rewrite E. unfold entryEffect.
  by destruct (entryRequest entry).
Qed.

(** ** The whole loop *)

Lemma forEach_cons {A} (x : A) (l : list A) (body : A → M World unit) (w : World) :
  trace (forEach (x :: l) body w)
  = trace (body x w) ++ trace (forEach l body (world (body x w))).
Proof. simpl. by rewrite trace_bind. Qed.

Lemma forEach_cons_world {A} (x : A) (l : list A) (body : A → M World unit) w :
  world (forEach (x :: l) body w) = world (forEach l body (world (body x w))).
Proof. simpl. by rewrite world_bind. Qed.

(** Every entry is visited, whatever happened to the entries before it: the
    requests of the loop are those of its well-formed entries, in order. *)
Lemma forEach_requests (l : list (string * string)) (w : World) :
  putRequests (trace (forEach l syncEntry w)) = omap entryRequest l.
Proof.
  revert w. induction l as [|entry l IH]; intros w; [reflexivity|].
  rewrite forEach_cons, putRequests_app, IH, syncEntry_requests. simpl.
  by destruct (entryRequest entry).
Qed.

End Entries.

(** ** The cycle, case by case *)

Ltac run_cycle :=
  unfold Run, NewK8SClient, GetSecret, NewVaultClientForVaultToken,
    logf, emit, mbind, M_bind, mret, M_ret;
  repeat match goal with
         | E : ?call = (_, _) |- context [?call] => rewrite E
         | E : ?test = _ |- context [if ?test then _ else _] => rewrite E
         end.

Section Cycle.
Context {World : Type} `{Externals World}.

Lemma Run_k8s_failure v w msg w1 :
  client_NewK8SClient w = (Some msg, w1) →
  Run v w = (v, w1, [started; Log Error ("failed to init k8s client, " +:+ msg)]).
Proof. intros E1. run_cycle. reflexivity. Qed.

Lemma Run_fetch_failure v w w1 msg w2 :
  client_NewK8SClient w = (None, w1) →
  K8SClient_GetSecret (VaultCredSyncSecretName (conf v))
    (VaultSecretNameSpace (conf v)) w1 = (Err msg, w2) →
  Run v w = (v, w2, [started; Log Debug ("failed to read sync secret, " +:+ msg)]).
Proof. intros E1 E2. run_cycle. reflexivity. Qed.

Lemma Run_no_change v w w1 secretValues w2 :
  client_NewK8SClient w = (None, w1) →
  K8SClient_GetSecret (VaultCredSyncSecretName (conf v))
    (VaultSecretNameSpace (conf v)) w1 = (Ok secretValues, w2) →
  unchanged v (LastUpdatedTime secretValues) = true →
  Run v w = (v, w2, [started; found secretValues; Log Debug "no change in secret"]).
Proof. intros E1 E2 E3. run_cycle. reflexivity. Qed.

Lemma Run_auth_failure v w w1 secretValues w2 msg w3 :
  client_NewK8SClient w = (None, w1) →
  K8SClient_GetSecret (VaultCredSyncSecretName (conf v))
    (VaultSecretNameSpace (conf v)) w1 = (Ok secretValues, w2) →
  unchanged v (LastUpdatedTime secretValues) = false →
  client_NewVaultClientForVaultToken w2 = (Some msg, w3) →
  Run v w = (v, w3, [started; found secretValues; Authenticate (Some msg);
                     Log Error msg]).
Proof. intros E1 E2 E3 E4. run_cycle. reflexivity. Qed.

Lemma Run_sync v w w1 secretValues w2 w3 :
  client_NewK8SClient w = (None, w1) →
  K8SClient_GetSecret (VaultCredSyncSecretName (conf v))
    (VaultSecretNameSpace (conf v)) w1 = (Ok secretValues, w2) →
  unchanged v (LastUpdatedTime secretValues) = false →
  client_NewVaultClientForVaultToken w2 = (None, w3) →
  Run v w
  = (synced v secretValues,
     world (forEach (range (Data secretValues)) syncEntry w3),
     [started; found secretValues; Authenticate None]
     ++ trace (forEach (range (Data secretValues)) syncEntry w3)
     ++ [completed]).
Proof.
  intros E1 E2 E3 E4. run_cycle. unfold world, trace, synced.
  destruct (forEach _ syncEntry w3) as [[[] w4] t]. simpl.
  by rewrite Time_Add_0.
Qed.

Lemma unchanged_true v t :
  unchanged v t = true ↔ lastUpdatedTime v = Some t.
Proof.
  unfold unchanged. destruct (lastUpdatedTime v) as [last|].
  - rewrite Time_Equal_eq. split; congruence.
  - split; discriminate.
Qed.

Lemma unchanged_false v t :
  unchanged v t = false ↔ lastUpdatedTime v ≠ Some t.
Proof.
  rewrite <- unchanged_true. destruct (unchanged v t); split; congruence.
Qed.

End Cycle.

(** ** Copying a map entry by entry *)

Lemma assignAll_union (cred : strmap) (entries : list (string * string)) :
  assignAll cred entries = list_to_map (reverse entries) ∪ cred.
Proof.
  revert cred. induction entries as [|[k x] entries IH]; intros cred.
  - simpl. by rewrite (left_id_L ∅ (∪)).
  - simpl. rewrite IH, reverse_cons, list_to_map_app. simpl.
    rewrite <- (assoc_L (∪)), insert_empty, <- insert_union_singleton_l. done.
Qed.

(** The order in which the entries of [m] are visited does not matter: the
    copy overlays [m] on what [cred] held. *)
Lemma assignAll_range (cred m : strmap) (entries : list (string * string)) :
  entries ≡ₚ map_to_list m →
  assignAll cred entries = m ∪ cred.
Proof.
  intros Hperm. rewrite assignAll_union. f_equal.
  rewrite <- (list_to_map_to_list m). apply list_to_map_proper.
  - rewrite reverse_Permutation, Hperm. apply NoDup_fst_map_to_list.
  - by rewrite reverse_Permutation.
Qed.

(** ** Traces *)

Lemma putRequests_split (t : list event) :
  length (putRequests t) = length (storedRequests t) + length (failedRequests t).
Proof.
  induction t as [|e t IH]; [reflexivity|].
  destruct e as [l msg|res|req [msg|]]; simpl; lia.
Qed.

(** ** Prefixes *)

Lemma HasPrefix_cons c p key :
  strings.HasPrefix key (String c p) = true →
  ∃ rest, key = String c rest.
Proof.
  unfold strings.HasPrefix. destruct key as [|c' rest]; simpl; [discriminate|].
  destruct (Ascii.ascii_dec c c') as [->|]; [eauto | discriminate].
Qed.

(** No key carries two of the recognised prefixes: they start with
    different letters. *)
Lemma prefixes_exclusive (key : string) :
  (strings.HasPrefix key serviceCredSecretKeyPrefix = true →
   strings.HasPrefix key certSecretKeyPrefix = false
   ∧ strings.HasPrefix key genericSecretKeyPrefix = false)
  ∧ (strings.HasPrefix key certSecretKeyPrefix = true →
     strings.HasPrefix key serviceCredSecretKeyPrefix = false
     ∧ strings.HasPrefix key genericSecretKeyPrefix = false)
  ∧ (strings.HasPrefix key genericSecretKeyPrefix = true →
     strings.HasPrefix key serviceCredSecretKeyPrefix = false
     ∧ strings.HasPrefix key certSecretKeyPrefix = false).
Proof.
  split; [|split]; intros [rest ->]%HasPrefix_cons; split; reflexivity.
Qed.

Lemma authentications_app (t u : list event) :
  authentications (t ++ u) = authentications t + authentications u.
Proof. unfold authentications. by rewrite omap_app, length_app. Qed.

(** Reporting the error of a store operation adds no authentication. *)
Lemma authentications_quiet (t : list event) (err : error) :
  authentications
    (t ++ match err with Some msg => [Log Error msg] | None => [] end)
  = authentications t.
Proof. rewrite authentications_app. destruct err; simpl; unfold authentications; simpl; lia. Qed.

Section CycleProperties.
Context {World : Type} `{Externals World}.

Lemma putAndReport_authentications req failed stored w :
  authentications (trace (putAndReport req failed stored w)) = 0.
Proof.
  unfold putAndReport. destruct (VaultClient_PutCredential req w) as [[e|] w']; reflexivity.
Qed.

Lemma Run_reprocessed v w w1 secretValues w2 w3 :
  client_NewK8SClient w = (None, w1) →
  K8SClient_GetSecret (VaultCredSyncSecretName (conf v))
    (VaultSecretNameSpace (conf v)) w1 = (Ok secretValues, w2) →
  lastUpdatedTime v ≠ Some (LastUpdatedTime secretValues) →
  client_NewVaultClientForVaultToken w2 = (None, w3) →
  trace (Run v w)
  = [started; found secretValues; Authenticate None]
    ++ trace (forEach (range (Data secretValues)) syncEntry w3) ++ [completed]
  ∧ putRequests (trace (Run v w))
    = omap entryRequest (range (Data secretValues))
  ∧ lastUpdatedTime (value (Run v w)) = Some (LastUpdatedTime secretValues).
Proof.
  intros E1 E2 E3%unchanged_false E4.
  rewrite (Run_sync _ _ _ _ _ _ E1 E2 E3 E4). unfold trace at 1 3, value. simpl.
  split; [done|]. split; [|done].
  rewrite putRequests_app, forEach_requests. simpl. apply app_nil_r.
Qed.

Lemma omap_cons_eq {A B} (f : A → option B) (x : A) (l : list A) :
  omap f (x :: l)
  = match f x with Some y => y :: omap f l | None => omap f l end.
Proof. reflexivity. Qed.

Lemma syncEntry_authentications (entry : string * string) (w : World) :
  authentications (trace (syncEntry entry w)) = 0.
Proof.
  destruct entry as [key s]. unfold syncEntry.
  destruct (strings.HasPrefix key serviceCredSecretKeyPrefix).
  { rewrite logError_eq. unfold trace at 1. simpl. rewrite authentications_quiet.
    destruct (json_Unmarshal_ServiceCredentail s) as [r|c] eqn:E.
    - destruct (serviceRequest r) as [req|] eqn:V.
      + rewrite (storeServiceCredential_put _ _ _ _ _ E V).
        apply putAndReport_authentications.
      + by rewrite (storeServiceCredential_turned_down _ _ _ _ E V).
    - by rewrite (storeServiceCredential_parse_failure _ _ _ _ E). }
  destruct (strings.HasPrefix key certSecretKeyPrefix).
  { rewrite logError_eq. unfold trace at 1. simpl. rewrite authentications_quiet.
    destruct (json_Unmarshal_CertificateData s) as [r|c] eqn:E.
    - destruct (certRequest r) as [req|] eqn:V.
      + rewrite (storeCertData_put _ _ _ _ _ E V).
        apply putAndReport_authentications.
      + by rewrite (storeCertData_turned_down _ _ _ _ E V).
    - by rewrite (storeCertData_parse_failure _ _ _ _ E). }
  destruct (strings.HasPrefix key genericSecretKeyPrefix).
  { rewrite logError_eq. unfold trace at 1. simpl. rewrite authentications_quiet.
    destruct (json_Unmarshal_GenericCredential s) as [r|c] eqn:E.
    - destruct (genericRequest r) as [req|] eqn:V.
      + rewrite (storeGenericCredential_put _ _ _ _ _ E V).
        apply putAndReport_authentications.
      + by rewrite (storeGenericCredential_turned_down _ _ _ _ E V).
    - by rewrite (storeGenericCredential_parse_failure _ _ _ _ E). }
  reflexivity.
Qed.

Lemma forEach_authentications (l : list (string * string)) (w : World) :
  authentications (trace (forEach l syncEntry w)) = 0.
Proof.
  revert w. induction l as [|entry l IH]; intros w; [reflexivity|].
  by rewrite forEach_cons, authentications_app, IH, syncEntry_authentications.
Qed.

(** The number of well-formed entries of a map that holds one entry that
    is not well-formed next to well-formed ones. *)
Lemma well_formed_entries (entries : list (string * string))
  (key bad : string) (good : strmap) :
  entries ≡ₚ map_to_list (<[key := bad]> good) →
  good !! key = None →
  entryRequest (key, bad) = None →
  (∀ k s, good !! k = Some s → is_Some (entryRequest (k, s))) →
  length (omap entryRequest entries) = size good.
Proof.
  intros Hperm Hfresh Hbad Hgood.
  rewrite Hperm, (map_to_list_insert _ _ _ Hfresh), omap_cons_eq, Hbad.
  rewrite <- length_map_to_list.
  assert (Forall (λ e, is_Some (entryRequest e)) (map_to_list good)) as Hall.
  { apply Forall_forall. intros [k s] Hin%elem_of_map_to_list. eauto. }
  induction Hall as [|e l [req He] _ IH]; [reflexivity|].
  rewrite omap_cons_eq, He. simpl. by rewrite IH.
Qed.

(** The loop sends its writes to the vault one after the other. *)
Lemma forEach_world (l : list (string * string)) (w : World) :
  world (forEach l syncEntry w) = written w (omap entryRequest l).
Proof.
  revert w. induction l as [|entry l IH]; intros w; [reflexivity|].
  rewrite forEach_cons_world, IH, syncEntry_world, omap_cons_eq.
  by destruct (entryRequest entry).
Qed.

(** With a vault that accepts, every write the loop asks for is stored. *)
Lemma forEach_stored P (l : list (string * string)) (w : World) :
  Accepting P → P w →
  storedRequests (trace (forEach l syncEntry w)) = omap entryRequest l.
Proof.
  intros Hacc. revert w. induction l as [|entry l IH]; intros w Hw; [reflexivity|].
  rewrite forEach_cons, storedRequests_app, syncEntry_stored, syncEntry_world,
    omap_cons_eq.
  destruct (entryRequest entry) as [req|]; [|by rewrite IH].
  destruct (Hacc req w Hw) as [-> Hw']. by rewrite IH.
Qed.

(** C1.  Once the cycle has fetched the secret and authenticated, every
    entry of the secret is handled whatever happens to the others: the
    writes requested are exactly those of the well-formed entries, each of
    them is sent to the vault, and the cursor is set to the timestamp of
    the fetched secret.  For a map made of one entry that is not
    well-formed and [size good] well-formed entries, the accepted and the
    refused writes add up to [size good], and with a vault that accepts
    there are exactly [size good] successful writes. *)
Theorem Run_isolates_entry_failures v w w1 secretValues w2 w3 :
  RangeLaw →
  client_NewK8SClient w = (None, w1) →
  K8SClient_GetSecret (VaultCredSyncSecretName (conf v))
    (VaultSecretNameSpace (conf v)) w1 = (Ok secretValues, w2) →
  lastUpdatedTime v ≠ Some (LastUpdatedTime secretValues) →
  client_NewVaultClientForVaultToken w2 = (None, w3) →
  lastUpdatedTime (value (Run v w)) = Some (LastUpdatedTime secretValues)
  ∧ putRequests (trace (Run v w)) = omap entryRequest (range (Data secretValues))
  ∧ world (Run v w) = written w3 (omap entryRequest (range (Data secretValues)))
  ∧ ∀ key bad good,
      Data secretValues = <[key := bad]> good →
      good !! key = None →
      entryRequest (key, bad) = None →
      (∀ k s, good !! k = Some s → is_Some (entryRequest (k, s))) →
      length (storedRequests (trace (Run v w)))
      + length (failedRequests (trace (Run v w))) = size good
      ∧ ∀ P, Accepting P → P w3 →
             storedRequests (trace (Run v w))
             = omap entryRequest (range (Data secretValues))
             ∧ length (storedRequests (trace (Run v w))) = size good.
Proof.
  intros Hrange E1 E2 E3 E4.
  destruct (Run_reprocessed _ _ _ _ _ _ E1 E2 E3 E4) as (Htrace & Hreq & Hcursor).
  split; [done|]. split; [done|]. split.
  { apply unchanged_false in E3.
    rewrite (Run_sync _ _ _ _ _ _ E1 E2 E3 E4). unfold world at 1. cbn [fst snd].
    apply forEach_world. }
  intros key bad good Hdata Hfresh Hbad Hgood.
  assert (length (omap entryRequest (range (Data secretValues))) = size good)
    as Hsize.
  { apply (well_formed_entries _ key bad); try done.
    rewrite <- Hdata. apply Hrange. }
  split; [by rewrite <- putRequests_split, Hreq|].
  intros P Hacc Hw3.
  assert (storedRequests (trace (Run v w))
          = omap entryRequest (range (Data secretValues))) as Hstored.
  { rewrite Htrace, !storedRequests_app, (forEach_stored P) by done.
    simpl. apply app_nil_r. }
  split; [done|]. by rewrite Hstored.
Qed.

Lemma Run_pastCursor v w w1 secretValues w2 :
  client_NewK8SClient w = (None, w1) →
  K8SClient_GetSecret (VaultCredSyncSecretName (conf v))
    (VaultSecretNameSpace (conf v)) w1 = (Ok secretValues, w2) →
  lastUpdatedTime v ≠ Some (LastUpdatedTime secretValues) →
  pastCursor v w secretValues w2.
Proof.
  intros E1 E2 E3. split.
  - apply unchanged_false in E3.
    destruct (client_NewVaultClientForVaultToken w2) as [[msg|] w3] eqn:E4.
    + by rewrite (Run_auth_failure _ _ _ _ _ _ _ E1 E2 E3 E4).
    + rewrite (Run_sync _ _ _ _ _ _ E1 E2 E3 E4). unfold trace at 1.
      cbn [snd]. rewrite !authentications_app, forEach_authentications.
      reflexivity.
  - intros w3 E4. by apply (Run_reprocessed _ _ w1 _ w2).
Qed.

(** C2.  With the secret fetched: when the cursor holds exactly the
    timestamp of the fetched secret the cycle ends at once, with no
    authentication, no write and the receiver as it was; for any other
    timestamp, an earlier one included, the cycle authenticates and, the
    authentication granted, runs the loop body on every entry and moves
    the cursor. *)
Theorem Run_cursor_check v w w1 secretValues w2 :
  client_NewK8SClient w = (None, w1) →
  K8SClient_GetSecret (VaultCredSyncSecretName (conf v))
    (VaultSecretNameSpace (conf v)) w1 = (Ok secretValues, w2) →
  (lastUpdatedTime v = Some (LastUpdatedTime secretValues) →
   value (Run v w) = v
   ∧ authentications (trace (Run v w)) = 0
   ∧ putRequests (trace (Run v w)) = []
   ∧ world (Run v w) = w2)
  ∧ (lastUpdatedTime v ≠ Some (LastUpdatedTime secretValues) →
     pastCursor v w secretValues w2)
  ∧ (∀ last, lastUpdatedTime v = Some last →
             (LastUpdatedTime secretValues < last)%Z →
             pastCursor v w secretValues w2).
Proof.
  intros E1 E2. split; [|split].
  - intros E3%unchanged_true. by rewrite (Run_no_change _ _ _ _ _ E1 E2 E3).
  - by apply (Run_pastCursor _ _ w1).
  - intros last Hlast Hlt. apply (Run_pastCursor _ _ w1); try done.
    rewrite Hlast. intros [= ->]. lia.
Qed.

(** C3.  A cycle that cannot reach the cluster, cannot fetch the secret or
    cannot authenticate to the vault stops there: it has asked for no
    write and the receiver, cursor included, is as it was. *)
Theorem Run_setup_failure v w :
  (∀ msg w1, client_NewK8SClient w = (Some msg, w1) →
     value (Run v w) = v ∧ putRequests (trace (Run v w)) = []
     ∧ authentications (trace (Run v w)) = 0)
  ∧ (∀ w1 msg w2,
       client_NewK8SClient w = (None, w1) →
       K8SClient_GetSecret (VaultCredSyncSecretName (conf v))
         (VaultSecretNameSpace (conf v)) w1 = (Err msg, w2) →
       value (Run v w) = v ∧ putRequests (trace (Run v w)) = []
       ∧ authentications (trace (Run v w)) = 0)
  ∧ (∀ w1 secretValues w2 msg w3,
       client_NewK8SClient w = (None, w1) →
       K8SClient_GetSecret (VaultCredSyncSecretName (conf v))
         (VaultSecretNameSpace (conf v)) w1 = (Ok secretValues, w2) →
       client_NewVaultClientForVaultToken w2 = (Some msg, w3) →
       value (Run v w) = v ∧ putRequests (trace (Run v w)) = []).
Proof.
  split; [|split].
  - intros msg w1 E1. by rewrite (Run_k8s_failure _ _ _ _ E1).
  - intros w1 msg w2 E1 E2. by rewrite (Run_fetch_failure _ _ _ _ _ E1 E2).
  - intros w1 secretValues w2 msg w3 E1 E2 E4.
    destruct (unchanged v (LastUpdatedTime secretValues)) eqn:E3.
    + by rewrite (Run_no_change _ _ _ _ _ E1 E2 E3).
    + by rewrite (Run_auth_failure _ _ _ _ _ _ _ E1 E2 E3 E4).
Qed.

End CycleProperties.

(** * Properties of the entries *)

Section EntryProperties.
Context {World : Type} `{Externals World}.

Lemma syncEntry_unrecognised key secretValue w :
  strings.HasPrefix key serviceCredSecretKeyPrefix = false →
  strings.HasPrefix key certSecretKeyPrefix = false →
  strings.HasPrefix key genericSecretKeyPrefix = false →
  syncEntry (key, secretValue) w
  = (tt, w, [Log Info ("credentail type " +:+ key +:+ " not supported")]).
Proof. intros E1 E2 E3. unfold syncEntry. by rewrite E1, E2, E3. Qed.

(** C4.  The key of an entry is tested against ["SERVICE-CRED"], then
    ["CERTS"], then ["GENERIC"], and the entry goes to the store operation
    of the first prefix that matches: the iteration leaves the world and
    the events of that store operation, followed by one message at error
    level when the operation returned an error.  A key with none of the prefixes
    leaves one informational message, no error message and no write, and
    the loop goes on with the remaining entries. *)
Theorem syncEntry_classification key secretValue w :
  (strings.HasPrefix key "SERVICE-CRED" = true →
   syncEntry (key, secretValue) w
   = handled (storeServiceCredential key secretValue w))
  ∧ (strings.HasPrefix key "SERVICE-CRED" = false →
     strings.HasPrefix key "CERTS" = true →
     syncEntry (key, secretValue) w
     = handled (storeCertData key secretValue w))
  ∧ (strings.HasPrefix key "SERVICE-CRED" = false →
     strings.HasPrefix key "CERTS" = false →
     strings.HasPrefix key "GENERIC" = true →
     syncEntry (key, secretValue) w
     = handled (storeGenericCredential key secretValue w))
  ∧ (strings.HasPrefix key "SERVICE-CRED" = false →
     strings.HasPrefix key "CERTS" = false →
     strings.HasPrefix key "GENERIC" = false →
     syncEntry (key, secretValue) w
     = (tt, w, [Log Info ("credentail type " +:+ key +:+ " not supported")])
     ∧ ∀ rest,
         trace (forEach ((key, secretValue) :: rest) syncEntry w)
         = Log Info ("credentail type " +:+ key +:+ " not supported")
           :: trace (forEach rest syncEntry w)
         ∧ world (forEach ((key, secretValue) :: rest) syncEntry w)
           = world (forEach rest syncEntry w)).
Proof.
  change "SERVICE-CRED" with serviceCredSecretKeyPrefix.
  change "CERTS" with certSecretKeyPrefix.
  change "GENERIC" with genericSecretKeyPrefix.
  split; [|split; [|split]].
  - intros E1. unfold syncEntry. rewrite E1. apply logError_eq.
  - intros E1 E2. unfold syncEntry. rewrite E1, E2. apply logError_eq.
  - intros E1 E2 E3. unfold syncEntry. rewrite E1, E2, E3. apply logError_eq.
  - intros E1 E2 E3.
    pose proof (syncEntry_unrecognised key secretValue w E1 E2 E3) as Eskip.
    split; [done|]. intros rest.
    by rewrite forEach_cons, forEach_cons_world, Eskip.
Qed.

Lemma len0_false (s : string) : s ≠ "" → len0 s = false.
Proof. intros Hs. destruct (len0 s) eqn:E; [|done]. by apply len0_true in E. Qed.

Lemma serviceRequest_valid (r : ServiceCredentail.t) :
  ServiceCredentail.UserName r ≠ "" →
  ServiceCredentail.Password r ≠ "" →
  ServiceCredentail.EntityName r ≠ "" →
  serviceRequest r = Some {|
    mountPath := api_CredentialMountPath;
    secretPath := api_PrepareCredentialSecretPath "service-cred"
                    (ServiceCredentail.EntityName r)
                    (ServiceCredentail.CredIndentifier r);
    attributes := assignAll
                    (<["password" := ServiceCredentail.Password r]>
                       {["userName" := ServiceCredentail.UserName r]})
                    (range (ServiceCredentail.AdditionalData r)) |}.
Proof.
  intros U P E. unfold serviceRequest.
  by rewrite (len0_false _ U), (len0_false _ P), (len0_false _ E).
Qed.

(** A record that fails validation is dropped without any error: the error
    wrapped by the store operations is the [nil] left by a successful
    decoding, and wrapping [nil] gives [nil].  The loop then has nothing to
    report for the entry. *)
Lemma validation_failure_is_silent key secretData w :
  (∀ r, json_Unmarshal_ServiceCredentail secretData = Ok r →
        serviceRequest r = None →
        logError (storeServiceCredential key secretData) w = (tt, w, []))
  ∧ (∀ r, json_Unmarshal_CertificateData secretData = Ok r →
          certRequest r = None →
          logError (storeCertData key secretData) w = (tt, w, []))
  ∧ (∀ r, json_Unmarshal_GenericCredential secretData = Ok r →
          genericRequest r = None →
          logError (storeGenericCredential key secretData) w = (tt, w, [])).
Proof.
  split; [|split]; intros r E V; rewrite logError_eq.
  - by rewrite (storeServiceCredential_turned_down _ _ _ _ E V).
  - by rewrite (storeCertData_turned_down _ _ _ _ E V).
  - by rewrite (storeGenericCredential_turned_down _ _ _ _ E V).
Qed.

(** C5.  [storeServiceCredential] does not look at the credential
    identifier: a service credential whose identifier is empty, with a user
    name, a password and an entity name, is written to the vault, at the
    path made of ["service-cred"], the entity name and the empty
    identifier. *)
Theorem storeServiceCredential_empty_identifier key secretData r w :
  json_Unmarshal_ServiceCredentail secretData = Ok r →
  ServiceCredentail.CredIndentifier r = "" →
  ServiceCredentail.UserName r ≠ "" →
  ServiceCredentail.Password r ≠ "" →
  ServiceCredentail.EntityName r ≠ "" →
  ∃ req,
    putRequests (trace (storeServiceCredential key secretData w)) = [req]
    ∧ secretPath req
      = api_PrepareCredentialSecretPath "service-cred"
          (ServiceCredentail.EntityName r) "".
Proof.
  intros E I U P N. eexists. split.
  - rewrite (storeServiceCredential_put _ _ _ _ _ E (serviceRequest_valid r U P N)).
    apply putAndReport_requests.
  - simpl. by rewrite I.
Qed.

(** C6.  For a valid service credential the attributes written are the
    additional data laid over the two seeded keys: a key of the additional
    data always carries the value of the additional data, ["password"] and
    ["userName"] included, and the seeded keys carry the fields of the
    record only when the additional data does not have them. *)
Theorem storeServiceCredential_attributes key secretData r w :
  RangeLaw →
  json_Unmarshal_ServiceCredentail secretData = Ok r →
  ServiceCredentail.UserName r ≠ "" →
  ServiceCredentail.Password r ≠ "" →
  ServiceCredentail.EntityName r ≠ "" →
  ∃ req,
    putRequests (trace (storeServiceCredential key secretData w)) = [req]
    ∧ attributes req
      = ServiceCredentail.AdditionalData r
        ∪ (<["password" := ServiceCredentail.Password r]>
             {["userName" := ServiceCredentail.UserName r]})
    ∧ (∀ k x, ServiceCredentail.AdditionalData r !! k = Some x →
              attributes req !! k = Some x)
    ∧ (∀ x, ServiceCredentail.AdditionalData r !! "password" = Some x →
            attributes req !! "password" = Some x)
    ∧ (ServiceCredentail.AdditionalData r !! "password" = None →
       attributes req !! "password" = Some (ServiceCredentail.Password r))
    ∧ (ServiceCredentail.AdditionalData r !! "userName" = None →
       attributes req !! "userName" = Some (ServiceCredentail.UserName r))
    ∧ (∀ k, ServiceCredentail.AdditionalData r !! k = None →
            k ≠ "password" → k ≠ "userName" → attributes req !! k = None).
Proof.
  intros Hrange E U P N. eexists. split.
  { rewrite (storeServiceCredential_put _ _ _ _ _ E (serviceRequest_valid r U P N)).
    apply putAndReport_requests. }
  simpl. rewrite (assignAll_range _ _ _ (Hrange _)).
  split; [done|]. split; [|split; [|split; [|split]]].
  - intros k x Hk. by apply lookup_union_Some_l.
  - intros x Hk. by apply lookup_union_Some_l.
  - intros Hk. rewrite lookup_union_r by done. apply lookup_insert_eq.
  - intros Hk. rewrite lookup_union_r by done.
    rewrite lookup_insert_ne by done. apply lookup_singleton_eq.
  - intros k Hk Hp Hu. rewrite lookup_union_r by done.
    rewrite lookup_insert_ne by done. by apply lookup_singleton_ne.
Qed.

(** C7.  For a valid generic credential the attributes written are the
    credential mapping of the record, with nothing added, and the path is
    made of the credential type of the record, as the record gives it, its
    entity name and its credential identifier. *)
Theorem storeGenericCredential_request key secretData r w :
  RangeLaw →
  json_Unmarshal_GenericCredential secretData = Ok r →
  GenericCredential.EntityName r ≠ "" →
  GenericCredential.CredIndentifier r ≠ "" →
  GenericCredential.CredentialType r ≠ "" →
  putRequests (trace (storeGenericCredential key secretData w))
  = [{| mountPath := api_CredentialMountPath;
        secretPath := api_PrepareCredentialSecretPath
                        (GenericCredential.CredentialType r)
                        (GenericCredential.EntityName r)
                        (GenericCredential.CredIndentifier r);
        attributes := GenericCredential.Credential r |}].
Proof.
  intros Hrange E N I T.
  assert (genericRequest r = Some {|
    mountPath := api_CredentialMountPath;
    secretPath := api_PrepareCredentialSecretPath
                    (GenericCredential.CredentialType r)
                    (GenericCredential.EntityName r)
                    (GenericCredential.CredIndentifier r);
    attributes := GenericCredential.Credential r |}) as V.
  { unfold genericRequest.
    rewrite (len0_false _ N), (len0_false _ I), (len0_false _ T). simpl.
    by rewrite (assignAll_range _ _ _ (Hrange _)), (right_id_L ∅ (∪)). }
  rewrite (storeGenericCredential_put _ _ _ _ _ E V).
  apply putAndReport_requests.
Qed.

(** C8.  For a certificate record with its five fields filled the
    attributes written have exactly the three keys ["ca.pem"], ["cert.crt"]
    and ["key.key"], holding the CA certificate, the certificate and the
    private key, and the path is made of ["certs"], the entity name and the
    certificate identifier. *)
Theorem storeCertData_request key secretData r w :
  json_Unmarshal_CertificateData secretData = Ok r →
  CertificateData.EntityName r ≠ "" →
  CertificateData.CertIndentifier r ≠ "" →
  CertificateData.CACert r ≠ "" →
  CertificateData.Cert r ≠ "" →
  CertificateData.Key r ≠ "" →
  ∃ req,
    putRequests (trace (storeCertData key secretData w)) = [req]
    ∧ mountPath req = api_CredentialMountPath
    ∧ secretPath req
      = api_PrepareCredentialSecretPath "certs"
          (CertificateData.EntityName r) (CertificateData.CertIndentifier r)
    ∧ attributes req !! "ca.pem" = Some (CertificateData.CACert r)
    ∧ attributes req !! "cert.crt" = Some (CertificateData.Cert r)
    ∧ attributes req !! "key.key" = Some (CertificateData.Key r)
    ∧ dom (attributes req) = {["ca.pem"; "cert.crt"; "key.key"]}.
Proof.
  intros E N I CA C K.
  assert (certRequest r = Some {|
    mountPath := api_CredentialMountPath;
    secretPath := api_PrepareCredentialSecretPath "certs"
                    (CertificateData.EntityName r)
                    (CertificateData.CertIndentifier r);
    attributes := <["key.key" := CertificateData.Key r]>
                    (<["cert.crt" := CertificateData.Cert r]>
                       {["ca.pem" := CertificateData.CACert r]}) |}) as V.
  { unfold certRequest.
    by rewrite (len0_false _ N), (len0_false _ I), (len0_false _ CA),
      (len0_false _ C), (len0_false _ K). }
  eexists. split.
  { rewrite (storeCertData_put _ _ _ _ _ E V). apply putAndReport_requests. }
  simpl. split; [done|]. split; [done|]. split; [|split; [|split]].
  - rewrite lookup_insert_ne by done. rewrite lookup_insert_ne by done.
    apply lookup_singleton_eq.
  - rewrite lookup_insert_ne by done. apply lookup_insert_eq.
  - apply lookup_insert_eq.
  - rewrite !dom_insert_L, dom_singleton_L. set_solver.
Qed.

(** C10.  Two entries whose keys carry the same recognised prefix and whose
    values are the same text have the same effect on the vault: the same
    writes are requested, the same are accepted, and the world is left in
    the same state.  The key takes part in the classification and in the
    messages only. *)
Theorem syncEntry_ignores_key prefix key1 key2 secretValue w :
  prefix ∈ [serviceCredSecretKeyPrefix; certSecretKeyPrefix; genericSecretKeyPrefix] →
  strings.HasPrefix key1 prefix = true →
  strings.HasPrefix key2 prefix = true →
  putRequests (trace (syncEntry (key1, secretValue) w))
  = putRequests (trace (syncEntry (key2, secretValue) w))
  ∧ storedRequests (trace (syncEntry (key1, secretValue) w))
    = storedRequests (trace (syncEntry (key2, secretValue) w))
  ∧ world (syncEntry (key1, secretValue) w)
    = world (syncEntry (key2, secretValue) w).
Proof.
  intros Hprefix P1 P2.
  assert (entryRequest (key1, secretValue) = entryRequest (key2, secretValue)) as Ereq.
  { unfold entryRequest.
    destruct (prefixes_exclusive key1) as (S1 & C1 & G1).
    destruct (prefixes_exclusive key2) as (S2 & C2 & G2).
    repeat (apply elem_of_cons in Hprefix as [->|Hprefix]).
    - by rewrite P1, P2.
    - destruct (C1 P1) as [-> _]. destruct (C2 P2) as [-> _]. by rewrite P1, P2.
    - destruct (G1 P1) as [-> ->]. destruct (G2 P2) as [-> ->]. by rewrite P1, P2.
    - by apply elem_of_nil in Hprefix. }
  rewrite !syncEntry_requests, !syncEntry_stored, !syncEntry_world, Ereq. done.
Qed.

End EntryProperties.

(** * The properties on the simulated cluster *)

Lemma Run_isolates_entry_failures_witness :
  lastUpdatedTime (value (Run (Sim.job None) Samples.w0)) = Some 7%Z
  ∧ length (storedRequests (trace (Run (Sim.job None) Samples.w0))) = 3.
Proof.
  destruct (Run_isolates_entry_failures (Sim.job None) Samples.w0 Samples.w0
              Samples.fetched Samples.w0 Samples.w0)
    as (Hcursor & _ & _ & Hcount).
  - intros m. reflexivity.
  - reflexivity.
  - vm_compute. reflexivity.
  - discriminate.
  - reflexivity.
  - split; [exact Hcursor|].
    destruct (Hcount "SERVICE-CRED-bad" "{" Samples.good) as [_ Hstored].
    + reflexivity.
    + vm_compute. reflexivity.
    + vm_compute. reflexivity.
    + apply (bool_decide_unpack
               (map_Forall (λ k s, is_Some (entryRequest (k, s))) Samples.good)).
      vm_compute. reflexivity.
    + apply (Hstored (λ w, Sim.sealedPaths w = [])).
      * intros req w Hw. simpl. unfold Sim.PutCredential. rewrite Hw.
        simpl. split; reflexivity.
      * reflexivity.
Defined.

Lemma Run_cursor_check_witness :
  (value (Run (Sim.job (Some 7%Z)) Samples.w0) = Sim.job (Some 7%Z)
   ∧ authentications (trace (Run (Sim.job (Some 7%Z)) Samples.w0)) = 0
   ∧ putRequests (trace (Run (Sim.job (Some 7%Z)) Samples.w0)) = []
   ∧ world (Run (Sim.job (Some 7%Z)) Samples.w0) = Samples.w0)
  ∧ pastCursor (Sim.job (Some 9%Z)) Samples.w0 Samples.fetched Samples.w0.
Proof.
  split.
  - apply (Run_cursor_check (Sim.job (Some 7%Z)) Samples.w0 Samples.w0 Samples.fetched Samples.w0).
    + reflexivity.
    + vm_compute. reflexivity.
    + reflexivity.
  - apply (Run_cursor_check (Sim.job (Some 9%Z)) Samples.w0 Samples.w0 Samples.fetched Samples.w0) with 9%Z.
    + reflexivity.
    + vm_compute. reflexivity.
    + reflexivity.
    + reflexivity.
Defined.

Lemma Run_setup_failure_witness :
  (value (Run (Sim.job (Some 3%Z)) Samples.unreachable) = Sim.job (Some 3%Z)
   ∧ putRequests (trace (Run (Sim.job (Some 3%Z)) Samples.unreachable)) = []
   ∧ authentications (trace (Run (Sim.job (Some 3%Z)) Samples.unreachable)) = 0)
  ∧ (value (Run (Sim.job (Some 3%Z)) Samples.noSecret) = Sim.job (Some 3%Z)
   ∧ putRequests (trace (Run (Sim.job (Some 3%Z)) Samples.noSecret)) = []
   ∧ authentications (trace (Run (Sim.job (Some 3%Z)) Samples.noSecret)) = 0)
  ∧ (value (Run (Sim.job (Some 3%Z)) Samples.noToken) = Sim.job (Some 3%Z)
     ∧ putRequests (trace (Run (Sim.job (Some 3%Z)) Samples.noToken)) = []).
Proof.
  split; [|split].
  - apply (Run_setup_failure (Sim.job (Some 3%Z)) Samples.unreachable)
      with "unable to load in-cluster configuration" Samples.unreachable.
    reflexivity.
  - apply (Run_setup_failure (Sim.job (Some 3%Z)) Samples.noSecret)
      with Samples.noSecret "secrets vault-cred-sync-data not found" Samples.noSecret.
    + reflexivity.
    + vm_compute. reflexivity.
  - apply (Run_setup_failure (Sim.job (Some 3%Z)) Samples.noToken)
      with Samples.noToken Samples.fetched Samples.noToken "permission denied" Samples.noToken.
    + reflexivity.
    + vm_compute. reflexivity.
    + reflexivity.
Defined.

Lemma syncEntry_classification_witness :
  syncEntry ("UNKNOWN-y", "doc:orders") Samples.w0
  = (tt, Samples.w0, [Log Info "credentail type UNKNOWN-y not supported"])
  ∧ trace (syncEntry ("CERTS-web", "doc:web") Samples.w0)
    = [PutCredential Samples.webRequest None;
       Log Info "stored sync cert for web/tls1"]
  ∧ trace (syncEntry ("SERVICE-CRED-bad", "{") Samples.w0)
    = [Log Error "failed to parse SERVICE-CRED-bad secret data: invalid character"].
Proof.
  destruct (syncEntry_classification "CERTS-web" "doc:web" Samples.w0)
    as (_ & Hcert & _).
  destruct (syncEntry_classification "SERVICE-CRED-bad" "{" Samples.w0)
    as (Hservice & _).
  split; [|split].
  - apply (syncEntry_classification "UNKNOWN-y" "doc:orders" Samples.w0); reflexivity.
  - rewrite Hcert by reflexivity. vm_compute. reflexivity.
  - rewrite Hservice by reflexivity. vm_compute. reflexivity.
Defined.

Lemma storeServiceCredential_empty_identifier_witness :
  ∃ req,
    putRequests
      (trace (storeServiceCredential "SERVICE-CRED-db" "doc:orders-no-identifier" Samples.w0))
    = [req]
    ∧ secretPath req = "service-cred/orders/".
Proof.
  refine (storeServiceCredential_empty_identifier "SERVICE-CRED-db"
            "doc:orders-no-identifier"
            (ServiceCredentail.mk "orders" "" "svc" "p1" ∅) Samples.w0 _ _ _ _ _).
  - reflexivity.
  - reflexivity.
  - discriminate.
  - discriminate.
  - discriminate.
Defined.

Lemma storeServiceCredential_attributes_witness :
  ∃ req,
    putRequests
      (trace (storeServiceCredential "SERVICE-CRED-db" "doc:orders-extra" Samples.w0))
    = [req]
    ∧ attributes req !! "password" = Some "p2"
    ∧ attributes req !! "userName" = Some "svc".
Proof.
  destruct (storeServiceCredential_attributes "SERVICE-CRED-db" "doc:orders-extra"
              (ServiceCredentail.mk "orders" "primary" "svc" "p1"
                 (<["password" := "p2"]> {["url" := "db:5432"]})) Samples.w0)
    as (req & Hreq & _ & _ & Hpassword & _ & Huser & _).
  - intros m. reflexivity.
  - reflexivity.
  - discriminate.
  - discriminate.
  - discriminate.
  - exists req. split; [exact Hreq|]. split.
    + apply Hpassword. vm_compute. reflexivity.
    + apply Huser. vm_compute. reflexivity.
Defined.

Lemma storeGenericCredential_request_witness :
  putRequests (trace (storeGenericCredential "GENERIC-x" "doc:api-key" Samples.w0))
  = [{| mountPath := "secret/"; secretPath := "api-key/svc1/k1";
        attributes := {["token" := "t"]} |}].
Proof.
  refine (storeGenericCredential_request "GENERIC-x" "doc:api-key"
            (GenericCredential.mk "api-key" "svc1" "k1" {["token" := "t"]}) Samples.w0
            _ _ _ _ _).
  - intros m. reflexivity.
  - reflexivity.
  - discriminate.
  - discriminate.
  - discriminate.
Defined.

Lemma storeCertData_request_witness :
  ∃ req,
    putRequests (trace (storeCertData "CERTS-web" "doc:web" Samples.w0)) = [req]
    ∧ mountPath req = "secret/"
    ∧ secretPath req = "certs/web/tls1"
    ∧ attributes req !! "ca.pem" = Some "A"
    ∧ attributes req !! "cert.crt" = Some "B"
    ∧ attributes req !! "key.key" = Some "C"
    ∧ dom (attributes req) = {["ca.pem"; "cert.crt"; "key.key"]}.
Proof.
  refine (storeCertData_request "CERTS-web" "doc:web"
            (CertificateData.mk "web" "tls1" "A" "C" "B") Samples.w0 _ _ _ _ _ _).
  - reflexivity.
  - discriminate.
  - discriminate.
  - discriminate.
  - discriminate.
  - discriminate.
Defined.

Lemma syncEntry_ignores_key_witness :
  putRequests (trace (syncEntry ("CERTS-web", "doc:web") Samples.w0))
  = putRequests (trace (syncEntry ("CERTS-mail", "doc:web") Samples.w0))
  ∧ storedRequests (trace (syncEntry ("CERTS-web", "doc:web") Samples.w0))
    = storedRequests (trace (syncEntry ("CERTS-mail", "doc:web") Samples.w0))
  ∧ world (syncEntry ("CERTS-web", "doc:web") Samples.w0)
    = world (syncEntry ("CERTS-mail", "doc:web") Samples.w0).
Proof.
  apply (syncEntry_ignores_key "CERTS" "CERTS-web" "CERTS-mail" "doc:web" Samples.w0).
  - apply list_elem_of_In. simpl. right. left. reflexivity.
  - reflexivity.
  - reflexivity.
Defined.

(** ** Cycles on the simulated cluster *)

(** Two cycles in a row over a secret that did not change: the second one
    asks for no write and does not authenticate. *)
Example second_cycle_is_idle :
  let first := Run (Sim.job None) Samples.w0 in
  let second := Run (value first) (world first) in
  length (putRequests (trace first)) = 3
  ∧ trace second
    = [started; found Samples.fetched; Log Debug "no change in secret"]
  ∧ value second = value first.
Proof. vm_compute. repeat split. Qed.

(** A key without a recognised prefix: one informational message, no write,
    and the cursor moves. *)
Example unsupported_key :
  Run (Sim.job None) (Sim.cluster [("UNKNOWN-y", "doc:orders")] 7%Z)
  = (Sim.job (Some 7%Z), Sim.cluster [("UNKNOWN-y", "doc:orders")] 7%Z,
     [started;
      Log Debug "found 1 secret values to sync";
      Authenticate None;
      Log Info "credentail type UNKNOWN-y not supported";
      completed]).
Proof. vm_compute. reflexivity. Qed.

(** A service credential without user name: the entry is dropped, nothing
    is logged for it, and the cursor moves. *)
Example empty_user_name :
  Run (Sim.job None) (Sim.cluster [("SERVICE-CRED-db", "doc:orders-no-user")] 7%Z)
  = (Sim.job (Some 7%Z),
     Sim.cluster [("SERVICE-CRED-db", "doc:orders-no-user")] 7%Z,
     [started;
      Log Debug "found 1 secret values to sync";
      Authenticate None;
      completed]).
Proof. vm_compute. reflexivity. Qed.

(** A service credential without identifier is stored under a path that
    ends with the separator. *)
Example empty_identifier_is_stored :
  Sim.vault (world (Run (Sim.job None)
                      (Sim.cluster [("SERVICE-CRED-db", "doc:orders-no-identifier")] 7%Z)))
  !! "secret/service-cred/orders/"
  = Some (<["password" := "p1"]> {["userName" := "svc"]}).
Proof. vm_compute. reflexivity. Qed.

(** A refused write costs its own entry only: with the path of the
    certificate sealed, the two other well-formed entries are stored, the
    refusal is logged, and the cursor moves. *)
Example refused_write_is_isolated :
  let cycle := Run (Sim.job None) (Sim.seal ["certs/web/tls1"] Samples.w0) in
  secretPath <$> storedRequests (trace cycle)
  = ["api-key/svc1/k1"; "service-cred/orders/primary"]
  ∧ secretPath <$> failedRequests (trace cycle) = ["certs/web/tls1"]
  ∧ lastUpdatedTime (value cycle) = Some 7%Z.
Proof. vm_compute. repeat split. Qed.

(** * Further properties of the job *)

Lemma append_assoc (a b c : string) : (a +:+ b) +:+ c = a +:+ b +:+ c.
Proof.
  induction a as [|x a IH]; [done|].
  change (String x ((a +:+ b) +:+ c) = String x (a +:+ b +:+ c)).
  by rewrite IH.
Qed.

Lemma length_omap_le {A B} (f : A → option B) (l : list A) :
  (length (omap f l) ≤ length l)%nat.
Proof.
  induction l as [|x l IH]; [done|]. rewrite omap_cons_eq.
  destruct (f x); simpl; lia.
Qed.

Section CycleCases.
Context {World : Type} `{Externals World}.

(** The five ways a cycle can go. *)
Lemma Run_cases v w :
  (∃ msg w1,
     client_NewK8SClient w = (Some msg, w1)
     ∧ Run v w = (v, w1, [started; Log Error ("failed to init k8s client, " +:+ msg)]))
  ∨ (∃ w1 msg w2,
       client_NewK8SClient w = (None, w1)
       ∧ K8SClient_GetSecret (VaultCredSyncSecretName (conf v))
           (VaultSecretNameSpace (conf v)) w1 = (Err msg, w2)
       ∧ Run v w = (v, w2, [started; Log Debug ("failed to read sync secret, " +:+ msg)]))
  ∨ (∃ w1 secretValues w2,
       client_NewK8SClient w = (None, w1)
       ∧ K8SClient_GetSecret (VaultCredSyncSecretName (conf v))
           (VaultSecretNameSpace (conf v)) w1 = (Ok secretValues, w2)
       ∧ lastUpdatedTime v = Some (LastUpdatedTime secretValues)
       ∧ Run v w = (v, w2, [started; found secretValues;
                            Log Debug "no change in secret"]))
  ∨ (∃ w1 secretValues w2 msg w3,
       client_NewK8SClient w = (None, w1)
       ∧ K8SClient_GetSecret (VaultCredSyncSecretName (conf v))
           (VaultSecretNameSpace (conf v)) w1 = (Ok secretValues, w2)
       ∧ lastUpdatedTime v ≠ Some (LastUpdatedTime secretValues)
       ∧ client_NewVaultClientForVaultToken w2 = (Some msg, w3)
       ∧ Run v w = (v, w3, [started; found secretValues;
                            Authenticate (Some msg); Log Error msg]))
  ∨ (∃ w1 secretValues w2 w3,
       client_NewK8SClient w = (None, w1)
       ∧ K8SClient_GetSecret (VaultCredSyncSecretName (conf v))
           (VaultSecretNameSpace (conf v)) w1 = (Ok secretValues, w2)
       ∧ lastUpdatedTime v ≠ Some (LastUpdatedTime secretValues)
       ∧ client_NewVaultClientForVaultToken w2 = (None, w3)
       ∧ Run v w
         = (synced v secretValues,
            world (forEach (range (Data secretValues)) syncEntry w3),
            [started; found secretValues; Authenticate None]
            ++ trace (forEach (range (Data secretValues)) syncEntry w3)
            ++ [completed])).
Proof.
  destruct (client_NewK8SClient w) as [[msg|] w1] eqn:E1.
  { left. exists msg, w1. split; [done|]. by apply Run_k8s_failure. }
  right.
  destruct (K8SClient_GetSecret (VaultCredSyncSecretName (conf v))
              (VaultSecretNameSpace (conf v)) w1) as [[secretValues|msg] w2] eqn:E2.
  2: { left. exists w1, msg, w2. do 2 (split; [done|]). by apply (Run_fetch_failure _ _ w1). }
  right.
  destruct (unchanged v (LastUpdatedTime secretValues)) eqn:E3.
  { left. exists w1, secretValues, w2. do 2 (split; [done|]).
    split; [by apply unchanged_true|]. by apply (Run_no_change _ _ w1). }
  right.
  destruct (client_NewVaultClientForVaultToken w2) as [[msg|] w3] eqn:E4.
  - left. exists w1, secretValues, w2, msg, w3. do 2 (split; [done|]).
    split; [by apply unchanged_false|]. split; [done|].
    by apply (Run_auth_failure _ _ w1 _ w2).
  - right. exists w1, secretValues, w2, w3. do 2 (split; [done|]).
    split; [by apply unchanged_false|]. split; [done|].
    by apply (Run_sync _ _ w1 _ w2).
Qed.

Lemma Run_sync_requests v w secretValues w3 :
  Run v w
  = (synced v secretValues,
     world (forEach (range (Data secretValues)) syncEntry w3),
     [started; found secretValues; Authenticate None]
     ++ trace (forEach (range (Data secretValues)) syncEntry w3)
     ++ [completed]) →
  putRequests (trace (Run v w)) = omap entryRequest (range (Data secretValues)).
Proof.
  intros ->. unfold trace at 1. cbn [snd].
  rewrite !putRequests_app, forEach_requests. simpl. apply app_nil_r.
Qed.

(** X1.  A cycle never touches the configuration of the job nor its
    schedule, and never clears the cursor: after the cycle the cursor is
    the one the job had or the timestamp of a secret it fetched. *)
Theorem Run_preserves_configuration v w :
  conf (value (Run v w)) = conf v
  ∧ CronSpec (value (Run v w)) = CronSpec v
  ∧ (lastUpdatedTime (value (Run v w)) = lastUpdatedTime v
     ∨ ∃ w1 secretValues w2,
         client_NewK8SClient w = (None, w1)
         ∧ K8SClient_GetSecret (VaultCredSyncSecretName (conf v))
             (VaultSecretNameSpace (conf v)) w1 = (Ok secretValues, w2)
         ∧ lastUpdatedTime (value (Run v w)) = Some (LastUpdatedTime secretValues))
  ∧ (is_Some (lastUpdatedTime v) → is_Some (lastUpdatedTime (value (Run v w)))).
Proof.
  destruct (Run_cases v w) as
    [(msg & w1 & E1 & ->)
    |[(w1 & msg & w2 & E1 & E2 & ->)
     |[(w1 & sv & w2 & E1 & E2 & E3 & ->)
      |[(w1 & sv & w2 & msg & w3 & E1 & E2 & E3 & E4 & ->)
       |(w1 & sv & w2 & w3 & E1 & E2 & E3 & E4 & ->)]]]];
    unfold value, CronSpec; simpl; try (repeat split; by auto).
  split; [done|]. split; [done|]. split; [|by eauto].
  right. by exists w1, sv, w2.
Qed.

(** X2.  A cycle authenticates to the vault at most once, every write it
    asks for comes after an authentication that was granted, and its cursor
    moves only in a cycle whose authentication was granted. *)
Theorem Run_authenticates_first v w :
  (authentications (trace (Run v w)) ≤ 1)%nat
  ∧ (∀ before req res after,
       trace (Run v w) = before ++ PutCredential req res :: after →
       Authenticate None ∈ before)
  ∧ (lastUpdatedTime (value (Run v w)) ≠ lastUpdatedTime v →
     Authenticate None ∈ trace (Run v w)).
Proof.
  destruct (Run_cases v w) as
    [(msg & w1 & E1 & E)
    |[(w1 & msg & w2 & E1 & E2 & E)
     |[(w1 & sv & w2 & E1 & E2 & E3 & E)
      |[(w1 & sv & w2 & msg & w3 & E1 & E2 & E3 & E4 & E)
       |(w1 & sv & w2 & w3 & E1 & E2 & E3 & E4 & E)]]]].
  1-4: rewrite E; unfold trace, value; cbn [fst snd];
    (split; [simpl; by auto|]); (split; [|done]);
    intros before req res after Ht;
    apply (f_equal putRequests) in Ht; rewrite putRequests_app in Ht;
    simpl in Ht; by destruct (putRequests before).
  split; [|split].
  - rewrite E. unfold trace at 1. cbn [snd].
    rewrite !authentications_app, forEach_authentications. done.
  - rewrite E. unfold trace at 1. cbn [snd].
    intros [|e1 [|e2 [|e3 before]]] req res after Ht; simpl in Ht;
      try (injection Ht as Ht _; discriminate Ht);
      try (injection Ht as _ Ht _; discriminate Ht);
      try (injection Ht as _ _ Ht _; discriminate Ht).
    injection Ht as _ _ <- _. set_solver.
  - intros _. rewrite E. unfold trace at 1. cbn [snd]. set_solver.
Qed.

End CycleCases.

Section CycleExtras.
Context {World : Type} `{Externals World}.

Lemma entryRequest_mountPath entry req :
  entryRequest entry = Some req → mountPath req = api_CredentialMountPath.
Proof.
  destruct entry as [key s]. unfold entryRequest.
  destruct (strings.HasPrefix key serviceCredSecretKeyPrefix).
  { destruct (json_Unmarshal_ServiceCredentail s) as [r|]; [|done]. simpl.
    unfold serviceRequest. destruct (_ || _); [done|]. by intros [= <-]. }
  destruct (strings.HasPrefix key certSecretKeyPrefix).
  { destruct (json_Unmarshal_CertificateData s) as [r|]; [|done]. simpl.
    unfold certRequest. destruct (_ || _); [done|]. by intros [= <-]. }
  destruct (strings.HasPrefix key genericSecretKeyPrefix); [|done].
  destruct (json_Unmarshal_GenericCredential s) as [r|]; [|done]. simpl.
  unfold genericRequest. destruct (_ || _); [done|]. by intros [= <-].
Qed.

(** The requests of a cycle: none, or those of the entries of a secret it
    fetched. *)
Lemma Run_requests v w :
  putRequests (trace (Run v w)) = []
  ∨ ∃ w1 secretValues w2,
      client_NewK8SClient w = (None, w1)
      ∧ K8SClient_GetSecret (VaultCredSyncSecretName (conf v))
          (VaultSecretNameSpace (conf v)) w1 = (Ok secretValues, w2)
      ∧ putRequests (trace (Run v w))
        = omap entryRequest (range (Data secretValues)).
Proof.
  destruct (Run_cases v w) as
    [(msg & w1 & E1 & E)
    |[(w1 & msg & w2 & E1 & E2 & E)
     |[(w1 & sv & w2 & E1 & E2 & E3 & E)
      |[(w1 & sv & w2 & msg & w3 & E1 & E2 & E3 & E4 & E)
       |(w1 & sv & w2 & w3 & E1 & E2 & E3 & E4 & E)]]]].
  1-4: left; by rewrite E.
  right. exists w1, sv, w2. do 2 (split; [done|]). by apply Run_sync_requests in E.
Qed.

(** X3.  Whatever the cluster and the vault do, every write a cycle asks
    for goes to the credential mount path. *)
Theorem Run_writes_under_mount v w :
  Forall (λ req, mountPath req = api_CredentialMountPath)
    (putRequests (trace (Run v w))).
Proof.
  destruct (Run_requests v w) as [->|(w1 & sv & w2 & _ & _ & ->)]; [done|].
  apply Forall_forall. intros req (entry & _ & Hreq)%list_elem_of_omap.
  by apply (entryRequest_mountPath entry).
Qed.

(** X4.  A cycle asks for at most one write per entry of the secret it
    fetched. *)
Theorem Run_requests_bounded v w w1 secretValues w2 :
  RangeLaw →
  client_NewK8SClient w = (None, w1) →
  K8SClient_GetSecret (VaultCredSyncSecretName (conf v))
    (VaultSecretNameSpace (conf v)) w1 = (Ok secretValues, w2) →
  (length (putRequests (trace (Run v w))) ≤ size (Data secretValues))%nat.
Proof.
  intros Hrange E1 E2.
  destruct (Run_requests v w) as [->|(w1' & sv & w2' & E1' & E2' & ->)].
  { simpl. lia. }
  rewrite E1 in E1'. injection E1' as <-. rewrite E2 in E2'. injection E2' as <- <-.
  etrans; [apply length_omap_le|].
  by rewrite (Hrange _), length_map_to_list.
Qed.

(** X5.  The writes asked for by the loop do not depend on the order in
    which the entries are visited, nor on the answers of the vault: two
    runs of the loop over the same entries ask for the same writes, up to
    their order. *)
Theorem forEach_requests_order (entries1 entries2 : list (string * string)) w1 w2 :
  entries1 ≡ₚ entries2 →
  putRequests (trace (forEach entries1 syncEntry w1))
  ≡ₚ putRequests (trace (forEach entries2 syncEntry w2)).
Proof. intros Hperm. rewrite !forEach_requests. by rewrite Hperm. Qed.

(** X7.  Two cycles in a row.  After a cycle that went through the loop,
    a second cycle that fetches a secret with the same timestamp stops at
    the cursor check: no authentication, no write, and the job is left as
    the first cycle left it. *)
Theorem Run_twice_is_idle v w w1 secretValues w2 w3 w1' secretValues' w2' :
  client_NewK8SClient w = (None, w1) →
  K8SClient_GetSecret (VaultCredSyncSecretName (conf v))
    (VaultSecretNameSpace (conf v)) w1 = (Ok secretValues, w2) →
  lastUpdatedTime v ≠ Some (LastUpdatedTime secretValues) →
  client_NewVaultClientForVaultToken w2 = (None, w3) →
  client_NewK8SClient (world (Run v w)) = (None, w1') →
  K8SClient_GetSecret (VaultCredSyncSecretName (conf v))
    (VaultSecretNameSpace (conf v)) w1' = (Ok secretValues', w2') →
  LastUpdatedTime secretValues' = LastUpdatedTime secretValues →
  Run (value (Run v w)) (world (Run v w))
  = (value (Run v w), w2',
     [started; found secretValues'; Log Debug "no change in secret"]).
Proof.
  intros E1 E2 E3%unchanged_false E4 E1' E2' Htime.
  apply (Run_no_change _ _ w1'); [done|..];
    rewrite (Run_sync _ _ _ _ _ _ E1 E2 E3 E4) in *; unfold value, world in *;
    simpl in *; [done|].
  apply unchanged_true. simpl. by rewrite Htime.
Qed.

(** X8.  A job made by [NewVaultCredSync] carries the given schedule and
    no cursor, so its first cycle never stops at the cursor check: once the
    secret is fetched it authenticates to the vault. *)
Theorem NewVaultCredSync_first_cycle env schedule v w w1 secretValues w2 :
  NewVaultCredSync env schedule = Ok v →
  client_NewK8SClient w = (None, w1) →
  K8SClient_GetSecret (VaultCredSyncSecretName (conf v))
    (VaultSecretNameSpace (conf v)) w1 = (Ok secretValues, w2) →
  env = Ok (conf v)
  ∧ CronSpec v = schedule
  ∧ lastUpdatedTime v = None
  ∧ authentications (trace (Run v w)) = 1.
Proof.
  intros Hnew E1 E2. unfold NewVaultCredSync in Hnew.
  destruct env as [c|e]; [|done]. injection Hnew as <-.
  do 3 (split; [done|]).
  by destruct (Run_pastCursor _ w w1 secretValues w2 E1 E2) as [Hauth _].
Qed.

End CycleExtras.

(** X6.  The loop [for key, val := range m { cred[key] = val }] gives the
    same map in whatever order it visits the entries of [m]: the entries of
    [m] laid over what [cred] held.  On an empty [cred] it copies [m]. *)
Theorem assignAll_order_irrelevant (cred m : strmap)
  (entries1 entries2 : list (string * string)) :
  entries1 ≡ₚ map_to_list m →
  entries2 ≡ₚ map_to_list m →
  assignAll cred entries1 = assignAll cred entries2
  ∧ (∀ k, assignAll cred entries1 !! k
          = match m !! k with Some x => Some x | None => cred !! k end)
  ∧ assignAll ∅ entries1 = m.
Proof.
  intros H1 H2. rewrite !(assignAll_range _ m) by done.
  split; [done|]. split.
  - intros k. rewrite lookup_union. destruct (m !! k), (cred !! k); done.
  - apply (right_id_L ∅ (∪)).
Qed.

Section EntryExtras.
Context {World : Type} `{Externals World}.

Lemma HasPrefix_append (prefix rest : string) :
  strings.HasPrefix (prefix +:+ rest) prefix = true.
Proof.
  unfold strings.HasPrefix. induction prefix as [|c prefix IH]; simpl.
  - by destruct rest.
  - by destruct (Ascii.ascii_dec c c).
Qed.

Lemma syncEntry_service key secretValue w :
  strings.HasPrefix key serviceCredSecretKeyPrefix = true →
  syncEntry (key, secretValue) w
  = logError (storeServiceCredential key secretValue) w.
Proof. intros E. unfold syncEntry. by rewrite E. Qed.

Lemma syncEntry_cert key secretValue w :
  strings.HasPrefix key certSecretKeyPrefix = true →
  syncEntry (key, secretValue) w = logError (storeCertData key secretValue) w.
Proof.
  intros E. destruct (prefixes_exclusive key) as (_ & Hcert & _).
  destruct (Hcert E) as [E' _]. unfold syncEntry. by rewrite E', E.
Qed.

Lemma syncEntry_generic key secretValue w :
  strings.HasPrefix key genericSecretKeyPrefix = true →
  syncEntry (key, secretValue) w
  = logError (storeGenericCredential key secretValue) w.
Proof.
  intros E. destruct (prefixes_exclusive key) as (_ & _ & Hgeneric).
  destruct (Hgeneric E) as [E1 E2]. unfold syncEntry. by rewrite E1, E2, E.
Qed.

(** X9.  A key is recognised by its first characters alone: any key that
    starts with ["SERVICE-CRED"], ["CERTS"] or ["GENERIC"], the bare prefix
    included, goes to the store operation of that prefix, whatever
    follows: the iteration leaves the world and the events of that store
    operation, and logs the error it returned, if any. *)
Theorem syncEntry_prefix_only rest secretValue w :
  syncEntry ("SERVICE-CRED" +:+ rest, secretValue) w
  = handled (storeServiceCredential ("SERVICE-CRED" +:+ rest) secretValue w)
  ∧ syncEntry ("CERTS" +:+ rest, secretValue) w
    = handled (storeCertData ("CERTS" +:+ rest) secretValue w)
  ∧ syncEntry ("GENERIC" +:+ rest, secretValue) w
    = handled (storeGenericCredential ("GENERIC" +:+ rest) secretValue w).
Proof.
  split; [|split].
  - rewrite syncEntry_service by apply (HasPrefix_append "SERVICE-CRED").
    apply logError_eq.
  - rewrite syncEntry_cert by apply (HasPrefix_append "CERTS").
    apply logError_eq.
  - rewrite syncEntry_generic by apply (HasPrefix_append "GENERIC").
    apply logError_eq.
Qed.

(** X10.  The prefixes are matched as written, in upper case: the empty
    key and any key whose first character is none of [S], [C] and [G] are
    not supported, and leave one informational message and no write. *)
Theorem syncEntry_first_character key secretValue w :
  (∀ rest, key ≠ String "S" rest) →
  (∀ rest, key ≠ String "C" rest) →
  (∀ rest, key ≠ String "G" rest) →
  syncEntry (key, secretValue) w
  = (tt, w, [Log Info ("credentail type " +:+ key +:+ " not supported")]).
Proof.
  intros HS HC HG. apply syncEntry_unrecognised.
  - destruct (strings.HasPrefix key serviceCredSecretKeyPrefix) eqn:E; [|done].
    apply HasPrefix_cons in E as [rest ->]. by destruct (HS rest).
  - destruct (strings.HasPrefix key certSecretKeyPrefix) eqn:E; [|done].
    apply HasPrefix_cons in E as [rest ->]. by destruct (HC rest).
  - destruct (strings.HasPrefix key genericSecretKeyPrefix) eqn:E; [|done].
    apply HasPrefix_cons in E as [rest ->]. by destruct (HG rest).
Qed.

(** X11.  A value that does not decode costs one message at error level,
    which names the key and the cause; nothing is written and the world is
    as it was.  This holds for the three kinds of entries. *)
Theorem syncEntry_parse_failure key secretValue cause w :
  (strings.HasPrefix key "SERVICE-CRED" = true →
   json_Unmarshal_ServiceCredentail secretValue = Err cause →
   syncEntry (key, secretValue) w
   = (tt, w, [Log Error ("failed to parse " +:+ key +:+ " secret data: " +:+ cause)]))
  ∧ (strings.HasPrefix key "CERTS" = true →
     json_Unmarshal_CertificateData secretValue = Err cause →
     syncEntry (key, secretValue) w
     = (tt, w, [Log Error ("failed to parse " +:+ key +:+ " secret data: " +:+ cause)]))
  ∧ (strings.HasPrefix key "GENERIC" = true →
     json_Unmarshal_GenericCredential secretValue = Err cause →
     syncEntry (key, secretValue) w
     = (tt, w, [Log Error ("failed to parse " +:+ key +:+ " secret data: " +:+ cause)])).
Proof.
  assert (errors_WithMessagef (Some cause)
            ("failed to parse " +:+ key +:+ " secret data")
          = Some ("failed to parse " +:+ key +:+ " secret data: " +:+ cause)) as Hmsg.
  { unfold errors_WithMessagef. f_equal.
    change ("failed to parse " +:+ key +:+ " secret data")
      with (("failed to parse " +:+ key) +:+ " secret data").
    by rewrite !append_assoc. }
  split; [|split]; intros P E.
  - rewrite (syncEntry_service _ _ _ P), logError_eq,
      (storeServiceCredential_parse_failure _ _ _ _ E).
    unfold world, trace, value. cbn [fst snd]. by rewrite Hmsg.
  - rewrite (syncEntry_cert _ _ _ P), logError_eq,
      (storeCertData_parse_failure _ _ _ _ E).
    unfold world, trace, value. cbn [fst snd]. by rewrite Hmsg.
  - rewrite (syncEntry_generic _ _ _ P), logError_eq,
      (storeGenericCredential_parse_failure _ _ _ _ E).
    unfold world, trace, value. cbn [fst snd]. by rewrite Hmsg.
Qed.


Lemma write_failure_message key cause :
  ("failed to write " +:+ key +:+ " secret data to vault") +:+ ": " +:+ cause
  = "failed to write " +:+ key +:+ " secret data to vault: " +:+ cause.
Proof.
  change ("failed to write " +:+ key +:+ " secret data to vault")
    with (("failed to write " +:+ key) +:+ " secret data to vault").
  by rewrite !append_assoc.
Qed.

Lemma logError_putAndReport req failed stored w :
  logError (putAndReport req failed stored) w
  = match VaultClient_PutCredential req w with
    | (Some cause, w') =>
      (tt, w', [PutCredential req (Some cause);
                Log Error (failed +:+ ": " +:+ cause)])
    | (None, w') => (tt, w', [PutCredential req None; Log Info stored])
    end.
Proof.
  rewrite logError_eq. unfold putAndReport.
  destruct (VaultClient_PutCredential req w) as [[cause|] w']; reflexivity.
Qed.

(** How an entry that leads to the request [req] ends: the store operation
    of its kind ran [putAndReport] on [req]. *)
Lemma syncEntry_put key secretValue req w :
  entryRequest (key, secretValue) = Some req →
  ∃ stored,
    syncEntry (key, secretValue) w
    = logError (putAndReport req
                  ("failed to write " +:+ key +:+ " secret data to vault")
                  stored) w.
Proof.
  unfold entryRequest, syncEntry.
  destruct (strings.HasPrefix key serviceCredSecretKeyPrefix).
  { destruct (json_Unmarshal_ServiceCredentail secretValue) as [r|] eqn:E; [|done].
    simpl. intros V. eexists. rewrite !logError_eq.
    by rewrite (storeServiceCredential_put _ _ _ _ _ E V). }
  destruct (strings.HasPrefix key certSecretKeyPrefix).
  { destruct (json_Unmarshal_CertificateData secretValue) as [r|] eqn:E; [|done].
    simpl. intros V. eexists. rewrite !logError_eq.
    by rewrite (storeCertData_put _ _ _ _ _ E V). }
  destruct (strings.HasPrefix key genericSecretKeyPrefix); [|done].
  destruct (json_Unmarshal_GenericCredential secretValue) as [r|] eqn:E; [|done].
  simpl. intros V. eexists. rewrite !logError_eq.
  by rewrite (storeGenericCredential_put _ _ _ _ _ E V).
Qed.

(** X12.  A well-formed entry ends in one of two ways.  If the vault
    refuses the write, the cycle logs one message at error level that names
    the key and the cause, and nothing at informational level; if the vault
    accepts it, the cycle logs one informational message and no error. *)
Theorem syncEntry_write_outcome key secretValue req w :
  entryRequest (key, secretValue) = Some req →
  (∀ cause w', VaultClient_PutCredential req w = (Some cause, w') →
     syncEntry (key, secretValue) w
     = (tt, w',
        [PutCredential req (Some cause);
         Log Error ("failed to write " +:+ key +:+ " secret data to vault: "
                    +:+ cause)]))
  ∧ (∀ w', VaultClient_PutCredential req w = (None, w') →
       ∃ stored,
         syncEntry (key, secretValue) w
         = (tt, w', [PutCredential req None; Log Info stored])).
Proof.
  intros Hreq. destruct (syncEntry_put key secretValue req w Hreq) as [stored ->].
  rewrite logError_putAndReport. split.
  - intros cause w' ->. by rewrite write_failure_message.
  - intros w' ->. by exists stored.
Qed.

(** X13.  A record that decodes but lacks a required field is dropped
    without a trace: no write, no message at any level, the world as it
    was.  The fields required are the user name, the password and the
    entity name of a service credential, the five fields of a certificate,
    and the entity name, the identifier and the type of a generic
    credential. *)
Theorem syncEntry_validation_failure key secretValue w :
  (∀ r, strings.HasPrefix key "SERVICE-CRED" = true →
        json_Unmarshal_ServiceCredentail secretValue = Ok r →
        ServiceCredentail.UserName r = "" ∨ ServiceCredentail.Password r = ""
        ∨ ServiceCredentail.EntityName r = "" →
        syncEntry (key, secretValue) w = (tt, w, []))
  ∧ (∀ r, strings.HasPrefix key "CERTS" = true →
          json_Unmarshal_CertificateData secretValue = Ok r →
          CertificateData.CACert r = "" ∨ CertificateData.Cert r = ""
          ∨ CertificateData.Key r = "" ∨ CertificateData.EntityName r = ""
          ∨ CertificateData.CertIndentifier r = "" →
          syncEntry (key, secretValue) w = (tt, w, []))
  ∧ (∀ r, strings.HasPrefix key "GENERIC" = true →
          json_Unmarshal_GenericCredential secretValue = Ok r →
          GenericCredential.EntityName r = ""
          ∨ GenericCredential.CredIndentifier r = ""
          ∨ GenericCredential.CredentialType r = "" →
          syncEntry (key, secretValue) w = (tt, w, [])).
Proof.
  split; [|split]; intros r P E Hempty.
  - rewrite (syncEntry_service _ _ _ P), logError_eq.
    rewrite (storeServiceCredential_turned_down _ _ r); [done..|].
    unfold serviceRequest.
    destruct Hempty as [-> | [-> | ->]]; simpl; by rewrite ?orb_true_r.
  - rewrite (syncEntry_cert _ _ _ P), logError_eq.
    rewrite (storeCertData_turned_down _ _ r); [done..|].
    unfold certRequest.
    destruct Hempty as [->|[->|[-> | [-> | ->]]]]; simpl; by rewrite ?orb_true_r.
  - rewrite (syncEntry_generic _ _ _ P), logError_eq.
    rewrite (storeGenericCredential_turned_down _ _ r); [done..|].
    unfold genericRequest.
    destruct Hempty as [-> | [-> | ->]]; simpl; by rewrite ?orb_true_r.
Qed.

End EntryExtras.

Lemma errorsLogged_app (t u : list event) :
  errorsLogged (t ++ u) = errorsLogged t ++ errorsLogged u.
Proof. unfold errorsLogged. apply omap_app. Qed.

Lemma failedRequests_app (t u : list event) :
  failedRequests (t ++ u) = failedRequests t ++ failedRequests u.
Proof. unfold failedRequests. apply omap_app. Qed.

Section StoreExtras.
Context {World : Type} `{Externals World}.

(** X14.  The store operations write validated records only: a write of
    [storeServiceCredential] comes from a record with a user name, a
    password and an entity name, a write of [storeCertData] from a record
    with its five fields filled, and a write of [storeGenericCredential]
    from a record with a type, an entity name and an identifier; the path
    is made of the fields of that record. *)
Theorem store_writes_validated key secretData w req :
  (req ∈ putRequests (trace (storeServiceCredential key secretData w)) →
   ∃ r, json_Unmarshal_ServiceCredentail secretData = Ok r
        ∧ ServiceCredentail.UserName r ≠ ""
        ∧ ServiceCredentail.Password r ≠ ""
        ∧ ServiceCredentail.EntityName r ≠ ""
        ∧ secretPath req
          = api_PrepareCredentialSecretPath "service-cred"
              (ServiceCredentail.EntityName r)
              (ServiceCredentail.CredIndentifier r))
  ∧ (req ∈ putRequests (trace (storeCertData key secretData w)) →
     ∃ r, json_Unmarshal_CertificateData secretData = Ok r
          ∧ CertificateData.CACert r ≠ "" ∧ CertificateData.Cert r ≠ ""
          ∧ CertificateData.Key r ≠ "" ∧ CertificateData.EntityName r ≠ ""
          ∧ CertificateData.CertIndentifier r ≠ ""
          ∧ secretPath req
            = api_PrepareCredentialSecretPath "certs"
                (CertificateData.EntityName r)
                (CertificateData.CertIndentifier r))
  ∧ (req ∈ putRequests (trace (storeGenericCredential key secretData w)) →
     ∃ r, json_Unmarshal_GenericCredential secretData = Ok r
          ∧ GenericCredential.EntityName r ≠ ""
          ∧ GenericCredential.CredIndentifier r ≠ ""
          ∧ GenericCredential.CredentialType r ≠ ""
          ∧ secretPath req
            = api_PrepareCredentialSecretPath
                (GenericCredential.CredentialType r)
                (GenericCredential.EntityName r)
                (GenericCredential.CredIndentifier r)).
Proof.
  split; [|split].
  - destruct (json_Unmarshal_ServiceCredentail secretData) as [r|c] eqn:E.
    2: { rewrite (storeServiceCredential_parse_failure _ _ _ _ E).
         by intros ?%elem_of_nil. }
    destruct (serviceRequest r) as [req'|] eqn:V.
    2: { rewrite (storeServiceCredential_turned_down _ _ _ _ E V).
         by intros ?%elem_of_nil. }
    rewrite (storeServiceCredential_put _ _ _ _ _ E V), putAndReport_requests.
    intros ->%list_elem_of_singleton. exists r. split; [done|].
    unfold serviceRequest in V.
    destruct (len0 (ServiceCredentail.UserName r)) eqn:U; [done|].
    destruct (len0 (ServiceCredentail.Password r)) eqn:P; [done|].
    destruct (len0 (ServiceCredentail.EntityName r)) eqn:N; [done|].
    injection V as <-.
    repeat (split; [by intros ?%len0_true; congruence|]). done.
  - destruct (json_Unmarshal_CertificateData secretData) as [r|c] eqn:E.
    2: { rewrite (storeCertData_parse_failure _ _ _ _ E).
         by intros ?%elem_of_nil. }
    destruct (certRequest r) as [req'|] eqn:V.
    2: { rewrite (storeCertData_turned_down _ _ _ _ E V).
         by intros ?%elem_of_nil. }
    rewrite (storeCertData_put _ _ _ _ _ E V), putAndReport_requests.
    intros ->%list_elem_of_singleton. exists r. split; [done|].
    unfold certRequest in V.
    destruct (len0 (CertificateData.CACert r)) eqn:CA; [done|].
    destruct (len0 (CertificateData.Cert r)) eqn:C; [done|].
    destruct (len0 (CertificateData.Key r)) eqn:K; [done|].
    destruct (len0 (CertificateData.EntityName r)) eqn:N; [done|].
    destruct (len0 (CertificateData.CertIndentifier r)) eqn:I; [done|].
    injection V as <-.
    repeat (split; [by intros ?%len0_true; congruence|]). done.
  - destruct (json_Unmarshal_GenericCredential secretData) as [r|c] eqn:E.
    2: { rewrite (storeGenericCredential_parse_failure _ _ _ _ E).
         by intros ?%elem_of_nil. }
    destruct (genericRequest r) as [req'|] eqn:V.
    2: { rewrite (storeGenericCredential_turned_down _ _ _ _ E V).
         by intros ?%elem_of_nil. }
    rewrite (storeGenericCredential_put _ _ _ _ _ E V), putAndReport_requests.
    intros ->%list_elem_of_singleton. exists r. split; [done|].
    unfold genericRequest in V.
    destruct (len0 (GenericCredential.EntityName r)) eqn:N; [done|].
    destruct (len0 (GenericCredential.CredIndentifier r)) eqn:I; [done|].
    destruct (len0 (GenericCredential.CredentialType r)) eqn:T; [done|].
    injection V as <-.
    repeat (split; [by intros ?%len0_true; congruence|]). done.
Qed.

(** X15.  [storeCertData] never writes an empty value: every attribute of
    a certificate it sends to the vault is a non-empty text. *)
Theorem storeCertData_no_empty_attribute key secretData w req k x :
  req ∈ putRequests (trace (storeCertData key secretData w)) →
  attributes req !! k = Some x →
  x ≠ "".
Proof.
  destruct (json_Unmarshal_CertificateData secretData) as [r|c] eqn:E.
  2: { rewrite (storeCertData_parse_failure _ _ _ _ E). by intros ?%elem_of_nil. }
  destruct (certRequest r) as [req'|] eqn:V.
  2: { rewrite (storeCertData_turned_down _ _ _ _ E V). by intros ?%elem_of_nil. }
  rewrite (storeCertData_put _ _ _ _ _ E V), putAndReport_requests.
  intros ->%list_elem_of_singleton. unfold certRequest in V.
  destruct (len0 (CertificateData.CACert r)) eqn:CA; [done|].
  destruct (len0 (CertificateData.Cert r)) eqn:C; [done|].
  destruct (len0 (CertificateData.Key r)) eqn:K; [done|].
  destruct (len0 (CertificateData.EntityName r)) eqn:N; [done|].
  destruct (len0 (CertificateData.CertIndentifier r)) eqn:I; [done|].
  injection V as <-. simpl.
  intros [[_ <-] | [_ Hk]]%lookup_insert_Some.
  { intros ?%len0_true. congruence. }
  apply lookup_insert_Some in Hk as [[_ <-] | [_ Hk]].
  { intros ?%len0_true. congruence. }
  apply lookup_singleton_Some in Hk as [_ <-].
  intros ?%len0_true. congruence.
Qed.

Lemma syncEntry_errors entry w :
  length (errorsLogged (trace (syncEntry entry w)))
  = (if parseFailure entry then 1 else 0)
    + length (failedRequests (trace (syncEntry entry w))).
Proof.
  destruct entry as [key s]. unfold syncEntry, parseFailure.
  destruct (strings.HasPrefix key serviceCredSecretKeyPrefix).
  { destruct (json_Unmarshal_ServiceCredentail s) as [r|c] eqn:E.
    - destruct (serviceRequest r) as [req|] eqn:V.
      + rewrite !logError_eq, (storeServiceCredential_put _ _ _ _ _ E V).
        unfold putAndReport.
        by destruct (VaultClient_PutCredential req w) as [[cause|] w'].
      + by rewrite logError_eq, (storeServiceCredential_turned_down _ _ _ _ E V).
    - by rewrite logError_eq, (storeServiceCredential_parse_failure _ _ _ _ E). }
  destruct (strings.HasPrefix key certSecretKeyPrefix).
  { destruct (json_Unmarshal_CertificateData s) as [r|c] eqn:E.
    - destruct (certRequest r) as [req|] eqn:V.
      + rewrite !logError_eq, (storeCertData_put _ _ _ _ _ E V).
        unfold putAndReport.
        by destruct (VaultClient_PutCredential req w) as [[cause|] w'].
      + by rewrite logError_eq, (storeCertData_turned_down _ _ _ _ E V).
    - by rewrite logError_eq, (storeCertData_parse_failure _ _ _ _ E). }
  destruct (strings.HasPrefix key genericSecretKeyPrefix); [|done].
  destruct (json_Unmarshal_GenericCredential s) as [r|c] eqn:E.
  - destruct (genericRequest r) as [req|] eqn:V.
    + rewrite !logError_eq, (storeGenericCredential_put _ _ _ _ _ E V).
      unfold putAndReport.
      by destruct (VaultClient_PutCredential req w) as [[cause|] w'].
    + by rewrite logError_eq, (storeGenericCredential_turned_down _ _ _ _ E V).
  - by rewrite logError_eq, (storeGenericCredential_parse_failure _ _ _ _ E).
Qed.

(** X16.  The loop logs one message at error level for each value that
    does not decode and one for each write the vault refuses, and no
    other: validation failures and unsupported keys are not errors. *)
Theorem forEach_errors (entries : list (string * string)) w :
  length (errorsLogged (trace (forEach entries syncEntry w)))
  = length (filter (λ entry, parseFailure entry = true) entries)
    + length (failedRequests (trace (forEach entries syncEntry w))).
Proof.
  revert w. induction entries as [|entry entries IH]; intros w; [done|].
  rewrite forEach_cons, errorsLogged_app, failedRequests_app, !length_app,
    IH, syncEntry_errors, filter_cons.
  destruct (parseFailure entry); simpl; lia.
Qed.

End StoreExtras.

(** ** The further properties on the simulated cluster *)

Lemma Run_preserves_configuration_witness :
  is_Some (lastUpdatedTime (value (Run (Sim.job (Some 3%Z)) Samples.w0))).
Proof.
  apply (Run_preserves_configuration (Sim.job (Some 3%Z)) Samples.w0).
  exists 3%Z. reflexivity.
Defined.

Lemma Run_authenticates_first_witness :
  Authenticate None ∈ trace (Run (Sim.job None) Samples.w0).
Proof.
  destruct (Run_authenticates_first (Sim.job None) Samples.w0) as (_ & _ & Hcursor).
  apply Hcursor. vm_compute. discriminate.
Defined.

Lemma Run_requests_bounded_witness :
  (length (putRequests (trace (Run (Sim.job None) Samples.w0)))
   ≤ size (Data Samples.fetched))%nat.
Proof.
  apply (Run_requests_bounded (Sim.job None) Samples.w0 Samples.w0
           Samples.fetched Samples.w0).
  - intros m. reflexivity.
  - reflexivity.
  - vm_compute. reflexivity.
Defined.

Lemma forEach_requests_order_witness :
  putRequests
    (trace (forEach [("CERTS-web", "doc:web"); ("GENERIC-x", "doc:api-key")]
              syncEntry Samples.w0))
  ≡ₚ putRequests
       (trace (forEach [("GENERIC-x", "doc:api-key"); ("CERTS-web", "doc:web")]
                 syncEntry Samples.sealed)).
Proof.
  apply (forEach_requests_order
           [("CERTS-web", "doc:web"); ("GENERIC-x", "doc:api-key")]
           [("GENERIC-x", "doc:api-key"); ("CERTS-web", "doc:web")]
           Samples.w0 Samples.sealed).
  apply perm_swap.
Defined.

Lemma assignAll_order_irrelevant_witness :
  assignAll {["userName" := "svc"]} (map_to_list Samples.extra)
  = assignAll {["userName" := "svc"]} (reverse (map_to_list Samples.extra))
  ∧ (∀ k, assignAll {["userName" := "svc"]} (map_to_list Samples.extra) !! k
          = match Samples.extra !! k with
            | Some x => Some x
            | None => ({["userName" := "svc"]} : strmap) !! k
            end)
  ∧ assignAll ∅ (map_to_list Samples.extra) = Samples.extra.
Proof.
  apply (assignAll_order_irrelevant {["userName" := "svc"]} Samples.extra
           (map_to_list Samples.extra) (reverse (map_to_list Samples.extra))).
  - reflexivity.
  - vm_compute. apply perm_swap.
Defined.

Lemma Run_twice_is_idle_witness :
  Run (value (Run (Sim.job None) Samples.w0)) (world (Run (Sim.job None) Samples.w0))
  = (value (Run (Sim.job None) Samples.w0),
     world (Run (Sim.job None) Samples.w0),
     [started; found Samples.fetched; Log Debug "no change in secret"]).
Proof.
  apply (Run_twice_is_idle (Sim.job None) Samples.w0 Samples.w0 Samples.fetched
           Samples.w0 Samples.w0
           (world (Run (Sim.job None) Samples.w0)) Samples.fetched
           (world (Run (Sim.job None) Samples.w0))).
  - reflexivity.
  - vm_compute. reflexivity.
  - discriminate.
  - reflexivity.
  - vm_compute. reflexivity.
  - vm_compute. reflexivity.
  - reflexivity.
Defined.

Lemma NewVaultCredSync_first_cycle_witness :
  Ok (conf (Sim.job None)) = Ok (conf (Sim.job None))
  ∧ CronSpec (Sim.job None) = "@every 1m"
  ∧ lastUpdatedTime (Sim.job None) = None
  ∧ authentications (trace (Run (Sim.job None) Samples.w0)) = 1.
Proof.
  apply (NewVaultCredSync_first_cycle (Ok (conf (Sim.job None))) "@every 1m"
           (Sim.job None) Samples.w0 Samples.w0 Samples.fetched Samples.w0).
  - reflexivity.
  - reflexivity.
  - vm_compute. reflexivity.
Defined.

Lemma syncEntry_first_character_witness :
  syncEntry ("service-cred-db", "doc:orders") Samples.w0
  = (tt, Samples.w0, [Log Info "credentail type service-cred-db not supported"]).
Proof.
  apply (syncEntry_first_character "service-cred-db" "doc:orders" Samples.w0);
    intros rest; discriminate.
Defined.

Lemma syncEntry_parse_failure_witness :
  syncEntry ("SERVICE-CRED-bad", "{") Samples.w0
  = (tt, Samples.w0,
     [Log Error "failed to parse SERVICE-CRED-bad secret data: invalid character"]).
Proof.
  destruct (syncEntry_parse_failure "SERVICE-CRED-bad" "{" "invalid character"
              Samples.w0) as [Hservice _].
  apply Hservice; reflexivity.
Defined.

Lemma syncEntry_write_outcome_witness :
  syncEntry ("CERTS-web", "doc:web") Samples.sealed
  = (tt, Samples.sealed,
     [PutCredential Samples.webRequest (Some "permission denied");
      Log Error "failed to write CERTS-web secret data to vault: permission denied"]).
Proof.
  destruct (syncEntry_write_outcome "CERTS-web" "doc:web" Samples.webRequest
              Samples.sealed) as [Hrefused _].
  - vm_compute. reflexivity.
  - apply Hrefused. vm_compute. reflexivity.
Defined.

Lemma syncEntry_validation_failure_witness :
  syncEntry ("SERVICE-CRED-db", "doc:orders-no-user") Samples.w0
  = (tt, Samples.w0, []).
Proof.
  destruct (syncEntry_validation_failure "SERVICE-CRED-db" "doc:orders-no-user"
              Samples.w0) as [Hservice _].
  apply (Hservice (ServiceCredentail.mk "orders" "primary" "" "p1" ∅)).
  - reflexivity.
  - reflexivity.
  - left. reflexivity.
Defined.

Lemma store_writes_validated_witness :
  ∃ r, json_Unmarshal_CertificateData "doc:web" = Ok r
       ∧ CertificateData.CACert r ≠ "" ∧ CertificateData.Cert r ≠ ""
       ∧ CertificateData.Key r ≠ "" ∧ CertificateData.EntityName r ≠ ""
       ∧ CertificateData.CertIndentifier r ≠ ""
       ∧ secretPath Samples.webRequest
         = api_PrepareCredentialSecretPath "certs"
             (CertificateData.EntityName r) (CertificateData.CertIndentifier r).
Proof.
  destruct (store_writes_validated "CERTS-web" "doc:web" Samples.w0
              Samples.webRequest) as (_ & Hcert & _).
  apply Hcert. apply list_elem_of_In. vm_compute. left. reflexivity.
Defined.

Lemma storeCertData_no_empty_attribute_witness : "A" ≠ "".
Proof.
  apply (storeCertData_no_empty_attribute "CERTS-web" "doc:web" Samples.w0
           Samples.webRequest "ca.pem" "A").
  - apply list_elem_of_In. vm_compute. left. reflexivity.
  - vm_compute. reflexivity.
Defined.
